(** * postgres-nullable: the query builder of [DatabaseClient.ts]

    A shallow embedding of [src/DatabaseClient.ts]: the [Parameters] binder,
    [applyPredicate], the statement compilers of [DatabaseClient]
    ([findOneQuery], [searchQuery], [countQuery] and the statements built by
    [save], [update] and [delete]), the reads and the three write operations
    with their notifications, [createNull] and the [PoolStub] it uses; of
    [UserRepository.ts] and [UserService.ts]; of [memoize] in
    [DatabasePool.ts]; and of [PendingQuery.toString] in [sql-stub.ts] with
    the texts that [user-repo.ts] builds through it.

    Modelling conventions.
    - A JavaScript string is a [string]; each [ascii] is read as the UTF-16
      code unit of the same number (U+0000 to U+00FF).
    - A JavaScript value ([unknown]) is a [value]: [undefined], [null], a
      boolean, a number, a string, an array or a plain object.  Numbers are
      the integer-valued ones, carried as [Z] and read as such below 10^21
      in magnitude.  [NaN], the infinities, [-0], fractions, [BigInt],
      [Date] and objects with a [toJSON] are outside the model, and so is
      what [JSON.stringify] does with them.
    - An object used as a record ([Object.keys], [Object.values],
      [Object.entries]) is the association list of its own enumerable
      properties in enumeration order.
    - [Parameters] is mutable state: code that calls [param] lives in the
      state monad [Binder] over the parameter array.
    - [String.prototype.localeCompare] belongs to the host; it is a variable
      of the section that uses it.  [codeUnitCompare] and
      [controlBlindCompare] are two comparators to run the code with. *)

From Stdlib Require Import List String Ascii ZArith Arith Lia Bool.
From Stdlib Require Import Decimal DecimalNat DecimalString DecimalPos DecimalZ.
From Stdlib Require Import Sorted Permutation.
Import ListNotations.
Open Scope string_scope.

(** ** JavaScript values *)

#[warnings="-register-all"]
Inductive value : Type :=
| VUndefined
| VNull
| VBool (b : bool)
| VNum (z : Z)
| VStr (s : string)
| VArr (items : list value)
| VObj (fields : list (string * value)).

(** A record [{ [key: string]: unknown }] in property order. *)
Definition record := list (string * value).

Definition Object_keys (r : record) : list string := map fst r.
Definition Object_values (r : record) : list value := map snd r.
Definition Object_entries (r : record) : list (string * value) := r.

(** ** Strings *)

(** [String(n)] for a natural number: its decimal digits. *)
Definition string_of_nat (n : nat) : string :=
  NilEmpty.string_of_uint (Nat.to_uint n).

(** [Array.prototype.join] on an array of strings. *)
Fixpoint join (sep : string) (xs : list string) : string :=
  match xs with
  | [] => ""
  | [x] => x
  | x :: rest => x ++ sep ++ join sep rest
  end.

(** An array element that may be [undefined]; [join] writes [undefined] as
    the empty string. *)
Definition string_of_element (e : option string) : string :=
  match e with
  | Some s => s
  | None => ""
  end.

Definition join_elements (sep : string) (xs : list (option string)) : string :=
  join sep (map string_of_element xs).

(** ** The parameter binder: [class Parameters] *)

Definition Binder (A : Type) : Type := list value -> A * list value.

Definition ret {A : Type} (a : A) : Binder A := fun ps => (a, ps).

Definition bind {A B : Type} (m : Binder A) (k : A -> Binder B) : Binder B :=
  fun ps => let (a, ps') := m ps in k a ps'.

Declare Scope binder_scope.
Delimit Scope binder_scope with binder.
Notation "x <- m ;; k" := (bind m (fun x => k))
  (at level 61, m at next level, right associativity) : binder_scope.
Open Scope binder_scope.

(** [param(value)]: push, then name the new last position. *)
Definition param (v : value) : Binder string :=
  fun parameters =>
    let parameters := (parameters ++ [v])%list in
    ("$" ++ string_of_nat (List.length parameters), parameters).

(** [xs.map(f)] where [f] has effects on the binder: left to right. *)
Fixpoint mapM {A B : Type} (f : A -> Binder B) (xs : list A) : Binder (list B) :=
  match xs with
  | [] => ret []
  | x :: rest =>
      y <- f x ;;
      ys <- mapM f rest ;;
      ret (y :: ys)
  end.

(** ** Predicates *)

(** The union [Predicate<T>]; [In_] is the source's [In]. *)
Inductive Predicate : Type :=
| Equals (column : string) (v : value)
| In_ (column : string) (values : list value)
| NotIn (column : string) (values : list value)
| ArrayContains (column : string) (v : value)
| TextSearch (columns : list string) (v : string).

(** [applyPredicate(predicate, parameters)].  The result is [None] where the
    source returns [undefined] ([conditions[0]] of an empty array). *)
Definition applyPredicate (predicate : Predicate) : Binder (option string) :=
  match predicate with
  | Equals column VNull => ret (Some (column ++ " IS NULL"))
  | Equals column v =>
      p <- param v ;;
      ret (Some (column ++ " = " ++ p))
  | In_ column values =>
      params <- mapM param values ;;
      ret (Some (column ++ " IN (" ++ join ", " params ++ ")"))
  | NotIn column values =>
      params <- mapM param values ;;
      ret (Some (column ++ " NOT IN (" ++ join ", " params ++ ")"))
  | ArrayContains column v =>
      p <- param v ;;
      ret (Some (p ++ " = ANY(" ++ column ++ ")"))
  | TextSearch columns v =>
      p <- param (VStr ("%" ++ v ++ "%")) ;;
      let conditions := map (fun column => column ++ " ILIKE " ++ p) columns in
      ret (if (1 <? List.length conditions)%nat
           then Some ("(" ++ join " OR " conditions ++ ")")
           else nth_error conditions 0)
  end.

(** ** Search specifications *)

Inductive Direction : Type := asc | desc.

(** [o.direction.toUpperCase()] *)
Definition toUpperCase (d : Direction) : string :=
  match d with
  | asc => "ASC"
  | desc => "DESC"
  end.

Record ColumnOrder : Type := {
  column : string;
  direction : Direction
}.

Record SearchSpec : Type := {
  where_ : option (list Predicate);
  order : option (list ColumnOrder);
  offset : option Z;
  limit : option Z
}.

(** ** Compiled statements *)

Record Statement : Type := {
  query : string;
  params : list value
}.

(** [where ?? []] *)
Definition orEmpty {A : Type} (xs : option (list A)) : list A :=
  match xs with
  | Some l => l
  | None => []
  end.

(** The truthiness of [xs.length]. *)
Definition nonEmpty {A : Type} (xs : list A) : bool :=
  match xs with
  | [] => false
  | _ :: _ => true
  end.

(** Run a compiler on a fresh [new Parameters()]. *)
Definition compile (m : Binder string) : Statement :=
  let (q, parameters) := m [] in
  {| query := q; params := parameters |}.

(** [if (predicates.length) query += ` WHERE ${predicates.join(" AND ")}`] *)
Definition addWhere (q : string) (predicates : list (option string)) : string :=
  if nonEmpty predicates
  then q ++ " WHERE " ++ join_elements " AND " predicates
  else q.

Definition findOneQuery (table : string) (where_ : option (list Predicate))
  : Statement :=
  compile (
    predicates <- mapM applyPredicate (orEmpty where_) ;;
    let q := "SELECT * FROM " ++ table in
    let q := addWhere q predicates in
    let q := q ++ " LIMIT 1" in
    ret q).

Definition findByIdQuery (table : string) (id : string) : Statement :=
  findOneQuery table (Some [Equals "id" (VStr id)]).

Definition searchQuery (table : string) (spec : SearchSpec) : Statement :=
  compile (
    predicates <- mapM applyPredicate (orEmpty (where_ spec)) ;;
    let q := "SELECT * FROM " ++ table in
    let q := addWhere q predicates in
    let q :=
      match order spec with
      | Some os =>
          if nonEmpty os
          then
            let orders :=
              map (fun o => column o ++ " " ++ toUpperCase (direction o)) os in
            q ++ " ORDER BY " ++ join ", " orders
          else q
      | None => q
      end in
    q <- match offset spec with
         | Some n => p <- param (VNum n) ;; ret (q ++ " OFFSET " ++ p)
         | None => ret q
         end ;;
    q <- match limit spec with
         | Some n => p <- param (VNum n) ;; ret (q ++ " LIMIT " ++ p)
         | None => ret q
         end ;;
    ret q).

Definition countQuery (table : string) (where_ : list Predicate) : Statement :=
  compile (
    predicates <- mapM applyPredicate where_ ;;
    let q := "SELECT COUNT(*) AS cnt FROM " ++ table in
    ret (addWhere q predicates)).

(** The line break and indentation inside the template literal of [save]. *)
Definition newline : string := String (ascii_of_nat 10) "".

(** The statement that [save] builds. *)
Definition saveQuery (table : string) (r : record) : Statement :=
  compile (
    values <- mapM param (Object_values r) ;;
    let columns := Object_keys r in
    ret ("INSERT INTO " ++ table ++ " (" ++ join ", " columns
         ++ ") VALUES (" ++ join ", " values ++ ")" ++ newline
         ++ "      ON CONFLICT (id) DO UPDATE SET "
         ++ join ", " (map (fun col => col ++ " = EXCLUDED." ++ col) columns))).

(** The statement that [delete] builds. *)
Definition deleteQuery (table : string) (where_ : option (list Predicate))
  : Statement :=
  compile (
    predicates <- mapM applyPredicate (orEmpty where_) ;;
    let q := "DELETE FROM " ++ table in
    ret (addWhere q predicates)).

(** ** Sorting the update map *)

Section Sort.
Context {A : Type}.
Variable compareFn : A -> A -> Z.

Fixpoint insert (x : A) (l : list A) : list A :=
  match l with
  | [] => [x]
  | y :: rest =>
      if (0 <? compareFn x y)%Z then y :: insert x rest else x :: l
  end.

(** [Array.prototype.sort(compareFn)].  The sort is stable; for a
    consistent comparator every stable sort returns the same array, here
    the one of insertion sort. *)
Fixpoint sort (l : list A) : list A :=
  match l with
  | [] => []
  | x :: rest => insert x (sort rest)
  end.

(** [x] comes no later than [y]. *)
Definition notAfter (x y : A) : Prop := (compareFn x y <= 0)%Z.
End Sort.

Section Update.
(** [a.localeCompare(b)]: negative, zero or positive. *)
Variable localeCompare : string -> string -> Z.

(** The statement that [update] builds. *)
Definition updateQuery (table : string) (where_ : option (list Predicate))
           (update : record) : Statement :=
  compile (
    predicates <- mapM applyPredicate (orEmpty where_) ;;
    sets <- mapM (fun '(column, v) =>
                    p <- param v ;; ret (column ++ " = " ++ p))
                 (sort (fun a b => localeCompare (fst a) (fst b))
                       (Object_entries update)) ;;
    let q := "UPDATE " ++ table ++ " SET " ++ join ", " sets in
    ret (addWhere q predicates)).
End Update.

(** Comparison of strings by code units, an instance of a comparator. *)
Definition codeUnitCompare (a b : string) : Z :=
  match String.compare a b with
  | Lt => (-1)%Z
  | Eq => 0%Z
  | Gt => 1%Z
  end.

(** ** The stub pool: [normalizeQuery], [JSON.stringify], [PoolStub] *)

(** The code units below U+0100 that [\s] and [trim] treat as white space:
    TAB, LF, VT, FF, CR, SPACE and NO-BREAK SPACE. *)
Definition isWhitespace (c : ascii) : bool :=
  let n := nat_of_ascii c in
  ((9 <=? n) && (n <=? 13) || (n =? 32) || (n =? 160))%nat.

(** [s.replace(/\s+/g, " ")]; [inRun] holds while the scan is inside a run
    of white space whose replacement is already written. *)
Fixpoint replaceWhitespace (inRun : bool) (s : string) : string :=
  match s with
  | EmptyString => EmptyString
  | String c rest =>
      if isWhitespace c
      then if inRun
           then replaceWhitespace true rest
           else String " " (replaceWhitespace true rest)
      else String c (replaceWhitespace false rest)
  end.

Fixpoint trimStart (s : string) : string :=
  match s with
  | EmptyString => EmptyString
  | String c rest => if isWhitespace c then trimStart rest else s
  end.

Fixpoint trimEnd (s : string) : string :=
  match s with
  | EmptyString => EmptyString
  | String c rest =>
      match trimEnd rest with
      | EmptyString => if isWhitespace c then EmptyString else String c EmptyString
      | t => String c t
      end
  end.

(** [s.trim()] *)
Definition trim (s : string) : string := trimStart (trimEnd s).

Definition normalizeQuery (q : string) : string :=
  trim (replaceWhitespace false q).

(** The words of a text: its maximal runs of code units that are not white
    space.  Used to say what normalizing does. *)
Fixpoint words (s : string) : list string :=
  match s with
  | EmptyString => []
  | String c rest =>
      if isWhitespace c then words rest
      else
        match rest with
        | EmptyString => [String c EmptyString]
        | String c' _ =>
            if isWhitespace c' then String c EmptyString :: words rest
            else
              match words rest with
              | w :: ws => String c w :: ws
              | [] => [String c EmptyString]
              end
        end
  end.

Definition startsWithSpace (s : string) : bool :=
  match s with
  | EmptyString => false
  | String c _ => isWhitespace c
  end.

(** A blank, then the words, when there are words. *)
Definition blankThen (ws : list string) : string :=
  match ws with
  | [] => ""
  | _ => " " ++ join " " ws
  end.

(** The double quote. *)
Definition dquote : string := String (ascii_of_nat 34) EmptyString.

Definition hexDigit (n : nat) : ascii :=
  if (n <? 10)%nat then ascii_of_nat (48 + n) else ascii_of_nat (87 + n).

(** One code unit inside [QuoteJSONString]. *)
Definition quoteJSONChar (c : ascii) : string :=
  let n := nat_of_ascii c in
  if (n =? 8)%nat then "\b"
  else if (n =? 9)%nat then "\t"
  else if (n =? 10)%nat then "\n"
  else if (n =? 12)%nat then "\f"
  else if (n =? 13)%nat then "\r"
  else if (n =? 34)%nat then "\" ++ dquote
  else if (n =? 92)%nat then "\\"
  else if (n <? 32)%nat
       then "\u00" ++ String (hexDigit (n / 16)) (String (hexDigit (n mod 16)) EmptyString)
       else String c EmptyString.

Fixpoint quoteJSONBody (s : string) : string :=
  match s with
  | EmptyString => EmptyString
  | String c rest => quoteJSONChar c ++ quoteJSONBody rest
  end.

Definition quoteJSONString (s : string) : string :=
  dquote ++ quoteJSONBody s ++ dquote.

(** [Number::toString] of an integer-valued number, in plain digits (as
    JavaScript writes magnitudes below 10^21). *)
Definition string_of_Z (z : Z) : string :=
  NilEmpty.string_of_int (Z.to_int z).

(** [SerializeJSONProperty]: [None] is [undefined].  An [undefined] array
    element is written [null]; a property whose value is [undefined] is
    left out. *)
Fixpoint serializeJSON (v : value) : option string :=
  match v with
  | VUndefined => None
  | VNull => Some "null"
  | VBool true => Some "true"
  | VBool false => Some "false"
  | VNum z => Some (string_of_Z z)
  | VStr s => Some (quoteJSONString s)
  | VArr items =>
      let elements :=
        map (fun x => match serializeJSON x with
                      | Some t => t
                      | None => "null"
                      end) items in
      Some ("[" ++ join "," elements ++ "]")
  | VObj fields =>
      let members :=
        flat_map (fun kx => match serializeJSON (snd kx) with
                            | Some t => [quoteJSONString (fst kx) ++ ":" ++ t]
                            | None => []
                            end) fields in
      Some ("{" ++ join "," members ++ "}")
  end.

(** [JSON.stringify(params)] where [params] is an array or [undefined]. *)
Definition JSON_stringify (ps : option (list value)) : option string :=
  match ps with
  | Some l => serializeJSON (VArr l)
  | None => None
  end.

(** [a === b] on results of [JSON.stringify]. *)
Definition strictEquals (a b : option string) : bool :=
  match a, b with
  | Some x, Some y => String.eqb x y
  | None, None => true
  | _, _ => false
  end.

Record QueryResult : Type := { rows : list value }.

Record StubbedQuery : Type := {
  stub_query : string;
  stub_params : option (list value);
  stub_result : QueryResult
}.

(** What [console.warn] received. *)
Record Warning : Type := {
  warned_query : string;
  warned_params : option (list value)
}.

Module PoolStub.

(** The private field [#queries], and the console the stub writes to. *)
Record t : Type := {
  queries : list StubbedQuery;
  console : list Warning
}.

(** [new PoolStub({ queries })] *)
Definition new (qs : option (list StubbedQuery)) : t :=
  {| queries :=
       map (fun q => {| stub_query := normalizeQuery (stub_query q);
                        stub_params := stub_params q;
                        stub_result := stub_result q |})
           (orEmpty qs);
     console := [] |}.

(** The callback given to [find]. *)
Definition matches (normalizedQuery : string) (ps : option (list value))
           (q : StubbedQuery) : bool :=
  String.eqb (stub_query q) normalizedQuery
  && strictEquals (JSON_stringify (stub_params q)) (JSON_stringify ps).

(** [PoolStub.query]: the result and the stub afterwards. *)
Definition query (self : t) (q : string) (ps : option (list value))
  : QueryResult * t :=
  let normalizedQuery := normalizeQuery q in
  match find (matches normalizedQuery ps) (queries self) with
  | Some stub => (stub_result stub, self)
  | None =>
      ({| rows := [] |},
       {| queries := queries self;
          console := (console self
                      ++ [{| warned_query := normalizedQuery;
                             warned_params := ps |}])%list |})
  end.

End PoolStub.

(** ** The client: executing statements and notifying listeners *)

(** The interface [DatabasePool]: a query settles with rows or is rejected
    with an error. *)
Class DatabasePool (Error Pool : Type) : Type := {
  pool_query :
    Pool -> string -> option (list value) -> (Error + QueryResult) * Pool
}.

#[export] Instance PoolStub_DatabasePool (Error : Type)
  : DatabasePool Error PoolStub.t := {
  pool_query self q ps :=
    let (r, self') := PoolStub.query self q ps in (inr r, self')
}.

(** The payloads of [DatabaseClientEvents]. *)
Inductive Event : Type :=
| saved (r : record)
| updated (where_ : option (list Predicate)) (update : record)
| deleted (where_ : option (list Predicate)).

(** What an operation did, in order. *)
Inductive Effect : Type :=
| Executed (q : string) (ps : option (list value))
| Emitted (e : Event).

Section Client.
Context {Error Pool : Type} `{DatabasePool Error Pool}.
Variable localeCompare : string -> string -> Z.

Record World : Type := {
  pool : Pool;
  trace : list Effect
}.

(** An [async] method: it runs in a world and is fulfilled ([inr]) or
    rejected ([inl]). *)
Definition Async (A : Type) : Type := World -> (Error + A) * World.

Definition resolve {A : Type} (a : A) : Async A := fun w => (inr a, w).

(** [await m], then the rest; a rejection skips the rest. *)
Definition await {A B : Type} (m : Async A) (k : A -> Async B) : Async B :=
  fun w =>
    match m w with
    | (inr a, w') => k a w'
    | (inl e, w') => (inl e, w')
    end.

(** [this.#query(query, params)]; the optional logger is left out. *)
Definition query_ (q : string) (ps : list value) : Async QueryResult :=
  fun w =>
    let (r, p) := pool_query (pool w) q (Some ps) in
    (r, {| pool := p; trace := (trace w ++ [Executed q (Some ps)])%list |}).

(** [this.emit(name, payload)] *)
Definition emit (e : Event) : Async unit :=
  fun w => (inr tt, {| pool := pool w; trace := (trace w ++ [Emitted e])%list |}).

Definition findOne (table : string) (where_ : option (list Predicate))
  : Async (option value) :=
  let s := findOneQuery table where_ in
  await (query_ (query s) (params s)) (fun r => resolve (nth_error (rows r) 0)).

Definition findById (table : string) (id : string) : Async (option value) :=
  findOne table (Some [Equals "id" (VStr id)]).

Definition search (table : string) (spec : SearchSpec) : Async (list value) :=
  let s := searchQuery table spec in
  await (query_ (query s) (params s)) (fun r => resolve (rows r)).

Definition save (table : string) (r : record) : Async unit :=
  let s := saveQuery table r in
  await (query_ (query s) (params s)) (fun _ => emit (saved r)).

Definition update (table : string) (where_ : option (list Predicate))
           (upd : record) : Async unit :=
  let s := updateQuery localeCompare table where_ upd in
  await (query_ (query s) (params s)) (fun _ => emit (updated where_ upd)).

Definition delete (table : string) (where_ : option (list Predicate))
  : Async unit :=
  let s := deleteQuery table where_ in
  await (query_ (query s) (params s)) (fun _ => emit (deleted where_)).

(** What a write must leave behind: the statement is executed once; when
    the pool fulfils it the event follows it in the trace and the call is
    fulfilled; when the pool rejects it the call is rejected with the same
    error and the trace ends at the execution. *)
Definition afterWrite (w : World) (s : Statement) (e : Event)
  : (Error + unit) * World :=
  let executed := Executed (query s) (Some (params s)) in
  match pool_query (pool w) (query s) (Some (params s)) with
  | (inr _, p) =>
      (inr tt, {| pool := p; trace := (trace w ++ [executed; Emitted e])%list |})
  | (inl err, p) =>
      (inl err, {| pool := p; trace := (trace w ++ [executed])%list |})
  end.
End Client.

(** ** Placeholder tokens of a SQL text *)

Definition isDigit (c : ascii) : bool :=
  let n := nat_of_ascii c in
  ((48 <=? n) && (n <=? 57))%nat.

Definition digitValue (c : ascii) : nat := nat_of_ascii c - 48.

Definition isDollar (c : ascii) : bool := Ascii.eqb c "$".

(** The number written by the digits at the head of [s], after digits worth
    [acc]. *)
Fixpoint readDigits (acc : nat) (s : string) : nat :=
  match s with
  | EmptyString => acc
  | String c rest =>
      if isDigit c then readDigits (10 * acc + digitValue c) rest else acc
  end.

Definition startsWithDigit (s : string) : bool :=
  match s with
  | EmptyString => false
  | String c _ => isDigit c
  end.

(** The placeholder tokens of a text, left to right: each [$] that digits
    follow, read with all of those digits. *)
Fixpoint placeholders (s : string) : list nat :=
  match s with
  | EmptyString => []
  | String c rest =>
      if isDollar c && startsWithDigit rest
      then readDigits 0 rest :: placeholders rest
      else placeholders rest
  end.

(** A name (of a table or column) that holds no [$]. *)
Fixpoint noDollar (s : string) : bool :=
  match s with
  | EmptyString => true
  | String c rest => negb (isDollar c) && noDollar rest
  end.

Definition predicateColumns (p : Predicate) : list string :=
  match p with
  | Equals c _ | In_ c _ | NotIn c _ | ArrayContains c _ => [c]
  | TextSearch cs _ => cs
  end.

Definition plainPredicate (p : Predicate) : bool :=
  forallb noDollar (predicateColumns p).

Definition plainWhere (w : option (list Predicate)) : bool :=
  forallb plainPredicate (orEmpty w).

Definition plainSpec (spec : SearchSpec) : bool :=
  plainWhere (where_ spec)
  && forallb (fun o => noDollar (column o)) (orEmpty (order spec)).

Definition plainRecord (r : record) : bool :=
  forallb noDollar (Object_keys r).

(** The values a predicate binds, in bind order. *)
Definition boundValues (p : Predicate) : list value :=
  match p with
  | Equals _ VNull => []
  | Equals _ v => [v]
  | In_ _ vs => vs
  | NotIn _ vs => vs
  | ArrayContains _ v => [v]
  | TextSearch _ v => [VStr ("%" ++ v ++ "%")]
  end.

(** The token [$k]. *)
Definition placeholder (k : nat) : string := "$" ++ string_of_nat k.


(** ** What the compilers write, stated without the binder

    The definitions below describe fragments and clauses as functions of
    the number [k] of values bound so far.  They are compared with the
    compilers in the properties that follow. *)

(** The tokens [$a], [$a+1], ... for [n] values. *)
Definition placeholdersFrom (a n : nat) : list string :=
  map placeholder (seq a n).

(** The table of the predicate compiler. *)
Definition fragment (p : Predicate) (k : nat) : option string :=
  match p with
  | Equals c VNull => Some (c ++ " IS NULL")
  | Equals c _ => Some (c ++ " = " ++ placeholder (S k))
  | In_ c vs =>
      Some (c ++ " IN (" ++ join ", " (placeholdersFrom (S k) (List.length vs)) ++ ")")
  | NotIn c vs =>
      Some (c ++ " NOT IN (" ++ join ", " (placeholdersFrom (S k) (List.length vs)) ++ ")")
  | ArrayContains c _ => Some (placeholder (S k) ++ " = ANY(" ++ c ++ ")")
  | TextSearch cs _ =>
      let branches := map (fun c => c ++ " ILIKE " ++ placeholder (S k)) cs in
      match branches with
      | [] => None
      | [b] => Some b
      | _ => Some ("(" ++ join " OR " branches ++ ")")
      end
  end.

Fixpoint fragments (k : nat) (ps : list Predicate) : list (option string) :=
  match ps with
  | [] => []
  | p :: rest => fragment p k :: fragments (k + List.length (boundValues p)) rest
  end.

Definition whereClause (fs : list (option string)) : string :=
  match fs with
  | [] => ""
  | _ => " WHERE " ++ join_elements " AND " fs
  end.

(** The placeholder indices of a fragment, left to right. *)
Definition predicatePlaceholders (p : Predicate) (k : nat) : list nat :=
  match p with
  | TextSearch cs _ => repeat (S k) (List.length cs)
  | _ => seq (S k) (List.length (boundValues p))
  end.

Fixpoint wherePlaceholders (k : nat) (ps : list Predicate) : list nat :=
  match ps with
  | [] => []
  | p :: rest =>
      (predicatePlaceholders p k
       ++ wherePlaceholders (k + List.length (boundValues p)) rest)%list
  end.

Definition orderClause (o : option (list ColumnOrder)) : string :=
  match o with
  | Some ((_ :: _) as os) =>
      " ORDER BY "
      ++ join ", " (map (fun c => column c ++ " " ++ toUpperCase (direction c)) os)
  | _ => ""
  end.

(** [ OFFSET $k+1] or [ LIMIT $k+1] when the number is defined. *)
Definition pagingClause (keyword : string) (n : option Z) (k : nat) : string :=
  match n with
  | Some _ => keyword ++ placeholder (S k)
  | None => ""
  end.

Definition pagingValue (n : option Z) : list value :=
  match n with
  | Some z => [VNum z]
  | None => []
  end.

(** The entries [column = $k+1], [column = $k+2], ... of a SET clause. *)
Fixpoint assignments (k : nat) (entries : list (string * value)) : list string :=
  match entries with
  | [] => []
  | (c, _) :: rest => (c ++ " = " ++ placeholder (S k)) :: assignments (S k) rest
  end.

(** The entries of the update map as [update] sorts them. *)
Definition sortedEntries (localeCompare : string -> string -> Z) (upd : record)
  : list (string * value) :=
  sort (fun a b => localeCompare (fst a) (fst b)) (Object_entries upd).

(** ** A comparator that gives no weight to control characters

    The default collation behind [localeCompare] gives no weight to the
    control characters U+0000 to U+0008 and U+000E to U+001F: names that
    differ only in them compare as equal.  [controlBlindCompare] has that
    one trait, and compares what is left by code units. *)

Definition isIgnorable (c : ascii) : bool :=
  let n := nat_of_ascii c in
  ((n <=? 8) || ((14 <=? n) && (n <=? 31)))%nat.

Fixpoint dropIgnorable (s : string) : string :=
  match s with
  | EmptyString => EmptyString
  | String c rest =>
      if isIgnorable c then dropIgnorable rest
      else String c (dropIgnorable rest)
  end.

Definition controlBlindCompare (a b : string) : Z :=
  codeUnitCompare (dropIgnorable a) (dropIgnorable b).

(** The name [a] followed by U+0001. *)
Definition nameWithControl : string :=
  String "a" (String (ascii_of_nat 1) EmptyString).

(** ** The claims of the specification, as predicates *)

(** The number of placeholder tokens in the fragment of [p] equals the
    number of values that compiling [p] appended to the binder [ps]. *)
Definition tokensMatchBinds (p : Predicate) (ps : list value) : Prop :=
  List.length (placeholders (string_of_element (fst (applyPredicate p ps))))
  = List.length (snd (applyPredicate p ps)) - List.length ps.

(** The texts are the same once normalized: the same words. *)
Definition sameWords (a b : string) : Prop :=
  join " " (words a) = join " " (words b).

(** A registered entry answers a call: same normalized text, and the same
    JSON text of the parameters. *)
Definition stubMatches (e : StubbedQuery) (q : string)
           (ps : option (list value)) : Prop :=
  sameWords (stub_query e) q
  /\ JSON_stringify (stub_params e) = JSON_stringify ps.

(** The search statement for one [In] predicate on [status] over table
    [t], as [createNull] registers it and as [search] sends it. *)
Definition statusIn (vs : list value) : Statement :=
  searchQuery "t" {| where_ := Some [In_ "status" vs]; order := None;
                     offset := None; limit := None |}.

Definition statusInStub (vs : list value) (result : list value) : StubbedQuery :=
  {| stub_query := query (statusIn vs);
     stub_params := Some (params (statusIn vs));
     stub_result := {| rows := result |} |}.

(** ** Data of the examples *)

Definition alice : value := VObj [("id", VStr "1"); ("name", VStr "Alice")].

(** The registry entry for the user with id 1, and the stub that holds
    it. *)
Definition aliceEntry : StubbedQuery :=
  {| stub_query := "SELECT * FROM users WHERE id = $1 LIMIT 1";
     stub_params := Some [VStr "1"];
     stub_result := {| rows := [alice] |} |}.

Definition usersStub : PoolStub.t := PoolStub.new (Some [aliceEntry]).

(** A text with a line break and doubled blanks. *)
Definition spacedText : string :=
  "  SELECT *" ++ newline ++ "    FROM   users  ".

(** ** The reads of [count], and reads side by side *)

(** [row?.cnt] for the first row of a result: [undefined] when there is no
    row, when the row is [null] or [undefined], and when it has no property
    [cnt]. *)
Fixpoint property (key : string) (fields : list (string * value)) : value :=
  match fields with
  | [] => VUndefined
  | (k, v) :: rest => if String.eqb k key then v else property key rest
  end.

Definition cntOf (row : option value) : value :=
  match row with
  | Some (VObj fields) => property "cnt" fields
  | _ => VUndefined
  end.

(** [v ?? 0] *)
Definition orZero (v : value) : value :=
  match v with
  | VUndefined | VNull => VNum 0
  | _ => v
  end.

Section Reads.
Context {Error Pool : Type} `{DatabasePool Error Pool}.

(** [DatabaseClient.count] *)
Definition count (table : string) (where_ : list Predicate) : Async value :=
  let s := countQuery table where_ in
  await (query_ (query s) (params s))
        (fun r => resolve (orZero (cntOf (nth_error (rows r) 0)))).

(** [Promise.all([a, b])] of two calls that each run one query: both are
    started, [a] first; the result is rejected when one of them is, and when
    both are the model reports the rejection of [a]. *)
Definition all2 {A B : Type} (a : @Async Error Pool A)
           (b : @Async Error Pool B) : @Async Error Pool (A * B) :=
  fun w =>
    let (ra, wa) := a w in
    let (rb, wb) := b wa in
    (match ra, rb with
     | inr x, inr y => inr (x, y)
     | inl e, _ => inl e
     | inr _, inl e => inl e
     end, wb).
End Reads.

(** ** [DatabaseClient.createNull] *)

(** The truthiness of a value. *)
Definition truthy (v : value) : bool :=
  match v with
  | VUndefined | VNull => false
  | VBool b => b
  | VNum z => negb (z =? 0)%Z
  | VStr s => negb (String.eqb s "")
  | VArr _ | VObj _ => true
  end.

(** The argument of [createNull]: for each kind of read, per table, what
    the stub answers.  A missing [result] of [findOne] is [VUndefined]. *)
Record DatabaseClientNull : Type := {
  null_findById : option (list (string * list (string * value)));
  null_findOne : option (list (string * list (list Predicate * value)));
  null_search : option (list (string * list (SearchSpec * list value)));
  null_count : option (list (string * list (list Predicate * Z)))
}.

(** [{ ...statement, result: { rows } }] *)
Definition stubFor (s : Statement) (result : list value) : StubbedQuery :=
  {| stub_query := query s;
     stub_params := Some (params s);
     stub_result := {| rows := result |} |}.

(** [record ? [record] : []] *)
Definition rowIfTruthy (v : value) : list value :=
  if truthy v then [v] else [].

(** The array [queries] that [createNull] hands to [PoolStub]. *)
Definition nullQueries (cfg : DatabaseClientNull) : list StubbedQuery :=
  (flat_map (fun '(table, records) =>
               map (fun '(id, r) =>
                      stubFor (findByIdQuery table id) (rowIfTruthy r))
                   records)
            (orEmpty (null_findById cfg))
   ++ flat_map (fun '(table, records) =>
                  map (fun '(where_, result) =>
                         stubFor (findOneQuery table (Some where_))
                                 (rowIfTruthy result))
                      records)
               (orEmpty (null_findOne cfg))
   ++ flat_map (fun '(table, records) =>
                  map (fun '(spec, result) =>
                         stubFor (searchQuery table spec) result)
                      records)
               (orEmpty (null_search cfg))
   ++ flat_map (fun '(table, records) =>
                  map (fun '(where_, result) =>
                         stubFor (countQuery table where_)
                                 [VObj [("cnt", VNum result)]])
                      records)
               (orEmpty (null_count cfg)))%list.

(** [DatabaseClient.createNull(cfg)]: a client over a stub pool, nothing
    done yet. *)
Definition createNull (cfg : DatabaseClientNull) : @World PoolStub.t :=
  {| pool := PoolStub.new (Some (nullQueries cfg)); trace := [] |}.

(** [createNull()] *)
Definition emptyNull : DatabaseClientNull :=
  {| null_findById := None; null_findOne := None;
     null_search := None; null_count := None |}.

(** ** [UserRepository] and [UserService] *)

Record User : Type := {
  user_id : string;
  user_name : string
}.

(** The object [{ id, name }]. *)
Definition userValue (u : User) : value :=
  VObj [("id", VStr (user_id u)); ("name", VStr (user_name u))].

Definition userRecord (u : User) : record :=
  [("id", VStr (user_id u)); ("name", VStr (user_name u))].

(** [Page<T>], with [N] the type of the count. *)
Record Page (T N : Type) : Type := {
  items : list T;
  totalCount : N
}.
Arguments items {T N} _.
Arguments totalCount {T N} _.

Record UserRepositoryNull : Type := {
  repo_findById : option (list (string * User));
  repo_searchByName : option (list (string * Page User Z))
}.

Module UserRepository.

(** The predicate and the order of a search by name. *)
Definition byName (name : string) : list Predicate :=
  [TextSearch ["name"] name].

Definition byNameSpec (name : string) : SearchSpec :=
  {| where_ := Some (byName name);
     order := Some [{| column := "id"; direction := asc |}];
     offset := None; limit := None |}.

(** What [UserRepository.createNull] passes to [DatabaseClient.createNull];
    [table] is ["users"]. *)
Definition nullConfig (table : string) (cfg : UserRepositoryNull)
  : DatabaseClientNull :=
  {| null_findById :=
       Some [(table, map (fun '(id, u) => (id, userValue u))
                         (orEmpty (repo_findById cfg)))];
     null_findOne := None;
     null_search :=
       Some [(table, map (fun '(name, result) =>
                            (byNameSpec name, map userValue (items result)))
                         (orEmpty (repo_searchByName cfg)))];
     null_count :=
       Some [(table, map (fun '(name, result) =>
                            (byName name, totalCount result))
                         (orEmpty (repo_searchByName cfg)))] |}.

(** The private field [#table]; the client [#sql] is the world the
    methods run in. *)
Record t : Type := { table : string }.

(** [UserRepository.createNull(cfg)]: the repository and its client. *)
Definition createNull (cfg : UserRepositoryNull) : t * @World PoolStub.t :=
  let table := "users" in
  ({| table := table |}, createNull (nullConfig table cfg)).

Section Methods.
Context {Error Pool : Type} `{DatabasePool Error Pool}.

Definition findById (self : t) (id : string) : Async (option value) :=
  findById (table self) id.

Definition searchByName (self : t) (name : string)
  : Async (Page value value) :=
  await (all2 (search (table self) (byNameSpec name))
              (count (table self) []))
        (fun '(found, n) => resolve {| items := found; totalCount := n |}).

Definition save (self : t) (user : User) : Async unit :=
  save (table self) (userRecord user).

End Methods.

End UserRepository.

Module UserService.

(** The private field [#repo]. *)
Record t : Type := { repo : UserRepository.t }.

Definition getUserById {Error Pool : Type} `{DatabasePool Error Pool}
           (self : t) (id : string) : Async (option value) :=
  UserRepository.findById (repo self) id.

End UserService.

(** The first entry of an object used as a map from keys. *)
Definition entryOf {A : Type} (key : string) (entries : list (string * A))
  : option A :=
  option_map snd (find (fun e => String.eqb (fst e) key) entries).

(** ** [memoize] of [DatabasePool.ts] *)

Section Memoize.
(** The state the factory works on, and the factory. *)
Context {State : Type}.
Variable factory : State -> value * State.

(** One call of the memoized function: the captured variable [value]
    before and after, the outer state before and after. *)
Definition memoized (cached : value) (s : State) : value * (value * State) :=
  match cached with
  | VUndefined =>
      let (v, s') := factory s in (v, (v, s'))
  | v => (v, (v, s))
  end.

(** [n] calls in a row, from a given captured variable: what they
    return, and the state at the end. *)
Fixpoint memoizedCalls (n : nat) (cached : value) (s : State)
  : list value * (value * State) :=
  match n with
  | O => ([], (cached, s))
  | S n' =>
      let '(v, (cached', s')) := memoized cached s in
      let '(vs, final) := memoizedCalls n' cached' s' in
      (v :: vs, final)
  end.
End Memoize.

(** ** [PendingQuery.toString] of [sql-stub.ts] *)

(** [String(v)]; an array is its elements joined by commas, [null] and
    [undefined] elements written as nothing. *)
Fixpoint String_ (v : value) : string :=
  match v with
  | VUndefined => "undefined"
  | VNull => "null"
  | VBool true => "true"
  | VBool false => "false"
  | VNum z => string_of_Z z
  | VStr s => s
  | VArr elements =>
      join "," (map (fun x => match x with
                              | VUndefined | VNull => ""
                              | _ => String_ x
                              end) elements)
  | VObj _ => "[object Object]"
  end.

Module PendingQuery.

(** The loop of [toString]: for each index of the template its string,
    then the parameter of that index when there is one. *)
Definition toString (template : list string) (parameters : list value)
  : string :=
  let parts :=
    flat_map (fun i =>
                nth i template ""
                :: (if (i <? List.length parameters)%nat
                    then [String_ (nth i parameters VUndefined)]
                    else []))
             (seq 0 (List.length template)) in
  join "" parts.

(** The same text, by taking template strings and parameters in turn. *)
Fixpoint interleave (template : list string) (parameters : list value)
  : string :=
  match template, parameters with
  | [], _ => ""
  | t :: ts, [] => t ++ interleave ts []
  | t :: ts, p :: ps => t ++ String_ p ++ interleave ts ps
  end.

End PendingQuery.

(** ** Reading a quoted string back *)

Definition hexValue (c : ascii) : nat :=
  let n := nat_of_ascii c in
  if (n <? 58)%nat then n - 48 else n - 87.

(** Reads back one code unit written by [quoteJSONChar]. *)
Definition unquoteJSONChar (s : string) : option (ascii * string) :=
  match s with
  | EmptyString => None
  | String c rest =>
      if Ascii.eqb c "\"
      then
        match rest with
        | EmptyString => None
        | String e rest' =>
            if Ascii.eqb e "b" then Some (ascii_of_nat 8, rest')
            else if Ascii.eqb e "t" then Some (ascii_of_nat 9, rest')
            else if Ascii.eqb e "n" then Some (ascii_of_nat 10, rest')
            else if Ascii.eqb e "f" then Some (ascii_of_nat 12, rest')
            else if Ascii.eqb e "r" then Some (ascii_of_nat 13, rest')
            else if Ascii.eqb e "u" then
              match rest' with
              | String _ (String _ (String h (String l k))) =>
                  Some (ascii_of_nat (16 * hexValue h + hexValue l), k)
              | _ => None
              end
            else Some (e, rest')
        end
      else Some (c, rest)
  end.

Definition head (s : string) : option ascii :=
  match s with
  | EmptyString => None
  | String c _ => Some c
  end.

(** ** Shapes of texts and statements *)

(** A word: not empty, and no white space in it. *)
Fixpoint noWhitespace (s : string) : bool :=
  match s with
  | EmptyString => true
  | String c rest => negb (isWhitespace c) && noWhitespace rest
  end.

Definition isWord (w : string) : bool :=
  negb (String.eqb w "") && noWhitespace w.

(** A text as [normalizeQuery] leaves it: it does not start with white
    space, and each white space in it is one blank with a code unit that is
    not white space right after it. *)
Fixpoint singleSpaced (s : string) : bool :=
  match s with
  | EmptyString => true
  | String c rest =>
      (if isWhitespace c
       then Ascii.eqb c " " && negb (String.eqb rest "")
            && negb (startsWithSpace rest)
       else true)
      && singleSpaced rest
  end.

Definition isNormalized (s : string) : bool :=
  negb (startsWithSpace s) && singleSpaced s.

(** Every [TextSearch] of the list names a column. *)
Definition namesColumns (w : option (list Predicate)) : bool :=
  forallb (fun p => match p with
                    | TextSearch [] _ => false
                    | _ => true
                    end) (orEmpty w).

(** ** What reads and writes leave behind *)

Section AfterRead.
Context {Error Pool : Type} `{DatabasePool Error Pool}.

(** What a read must leave behind: the statement is executed once and
    nothing else happens; the call is fulfilled with what [answer] takes
    from the result, or rejected with the error of the pool. *)
Definition afterRead {A : Type} (w : World) (s : Statement)
           (answer : QueryResult -> A) : (Error + A) * World :=
  let executed := Executed (query s) (Some (params s)) in
  match pool_query (pool w) (query s) (Some (params s)) with
  | (inr r, p) =>
      (inr (answer r), {| pool := p; trace := (trace w ++ [executed])%list |})
  | (inl err, p) =>
      (inl err, {| pool := p; trace := (trace w ++ [executed])%list |})
  end.
End AfterRead.

(** Two worlds over a stub answer every read alike. *)
Definition sameAnswers {Error : Type} (w w' : @World PoolStub.t) : Prop :=
  (forall table where_,
      fst (findOne (Error := Error) table where_ w')
      = fst (findOne table where_ w))
  /\ (forall table spec,
         fst (search (Error := Error) table spec w')
         = fst (search table spec w))
  /\ (forall table where_,
         fst (count (Error := Error) table where_ w')
         = fst (count table where_ w)).

(** ** The registry of a null [UserRepository] *)

(** The registry of a null [UserRepository], entry by entry: the users by
    id, then the searches by name, then the counts by name. *)
Definition usersById (users : list (string * User)) : list StubbedQuery :=
  map (fun '(id, u) =>
         {| stub_query := "SELECT * FROM users WHERE id = $1 LIMIT 1";
            stub_params := Some [VStr id];
            stub_result := {| rows := [userValue u] |} |}) users.

Definition usersByName (pages : list (string * Page User Z))
  : list StubbedQuery :=
  map (fun '(name, page) =>
         {| stub_query :=
              "SELECT * FROM users WHERE name ILIKE $1 ORDER BY id ASC";
            stub_params := Some [VStr ("%" ++ name ++ "%")];
            stub_result := {| rows := map userValue (items page) |} |}) pages.

Definition countsByName (pages : list (string * Page User Z))
  : list StubbedQuery :=
  map (fun '(name, page) =>
         {| stub_query :=
              "SELECT COUNT(*) AS cnt FROM users WHERE name ILIKE $1";
            stub_params := Some [VStr ("%" ++ name ++ "%")];
            stub_result :=
              {| rows := [VObj [("cnt", VNum (totalCount page))]] |} |})
      pages.

(** The items registered for a name, none when the name is not
    registered. *)
Definition itemsFor (name : string) (pages : list (string * Page User Z))
  : list value :=
  match entryOf name pages with
  | Some page => map userValue (items page)
  | None => []
  end.

(** ** Further predicates and factories *)

(** Every position of the parameter list is named by a token of the
    text. *)
Definition namesEveryValue (s : Statement) : Prop :=
  forall k, 1 <= k <= List.length (params s) ->
            List.In k (placeholders (query s)).

(** A counting factory: each run returns the number of runs before it. *)
Definition countingFactory (runs : nat) : value * nat :=
  (VNum (Z.of_nat runs), S runs).

(** A factory that returns [undefined], and counts its runs. *)
Definition undefinedFactory (runs : nat) : value * nat :=
  (VUndefined, S runs).

(** ** The repository of [user-repo.ts], over the stub of [sql-stub.ts] *)

Module UserRepo.

(** [sql("users")], a helper call of the stub: [JSON.stringify(first)]. *)
Definition usersTable : value :=
  VStr (match serializeJSON (VStr "users") with
        | Some text => text
        | None => "undefined"
        end).

(** The texts the resolver of the stub receives. *)
Definition findByIdText (id : string) : string :=
  PendingQuery.toString
    ["select id, name from "; " where id = "; " limit 1"]
    [usersTable; VStr id].

Definition findByNameText (name : string) : string :=
  PendingQuery.toString
    ["select id, name from "; " where name ilike "; " order by id"]
    [usersTable; VStr ("%" ++ name ++ "%")].

Definition saveText (user : User) : string :=
  PendingQuery.toString
    ["insert into "; " (id, name) values ("; ", ";
     ") on conflict (id) do update set name = "; ""]
    [usersTable; VStr (user_id user); VStr (user_name user);
     VStr (user_name user)].

Definition deleteByIdText (id : string) : string :=
  PendingQuery.toString ["delete from "; " where id = "; ""]
                        [usersTable; VStr id].

End UserRepo.

(** ** Data of further examples *)


(** A search with every kind of predicate, an order and both paging
    values. *)
Definition fullSpec : SearchSpec :=
  {| where_ := Some [Equals "status" (VStr "active");
                     Equals "removed" VNull;
                     In_ "kind" [VNum 1; VNum 2];
                     NotIn "owner" [VStr "x"];
                     ArrayContains "tags" (VStr "a");
                     TextSearch ["name"; "description"] "doe"];
     order := Some [{| column := "id"; direction := asc |}];
     offset := Some 10%Z;
     limit := Some 5%Z |}.

(** * Properties *)

(** ** Strings *)

Lemma append_assoc (a b c : string) : (a ++ b) ++ c = a ++ (b ++ c).
Proof. induction a as [|x a IH]; simpl; [reflexivity | now rewrite IH]. Qed.

Lemma append_empty_r (a : string) : a ++ "" = a.
Proof. induction a as [|x a IH]; simpl; [reflexivity | now rewrite IH]. Qed.

(** ** Reading placeholder tokens *)

Lemma startsWithDigit_app (s t : string) :
  startsWithDigit t = false ->
  startsWithDigit (s ++ t) = startsWithDigit s.
Proof. destruct s; simpl; auto. Qed.

Lemma readDigits_app (s t : string) (acc : nat) :
  startsWithDigit t = false ->
  readDigits acc (s ++ t) = readDigits acc s.
Proof.
  intros Ht. revert acc.
  induction s as [|c s IH]; intros acc; simpl.
  - destruct t as [|c t]; simpl in *; [reflexivity | now rewrite Ht].
  - destruct (isDigit c); [apply IH | reflexivity].
Qed.

Lemma placeholders_app (s t : string) :
  startsWithDigit t = false ->
  placeholders (s ++ t) = (placeholders s ++ placeholders t)%list.
Proof.
  intros Ht.
  induction s as [|c s IH]; simpl; [reflexivity|].
  rewrite (startsWithDigit_app s t Ht), (readDigits_app s t 0 Ht), IH.
  destruct (isDollar c && startsWithDigit s); reflexivity.
Qed.

Lemma placeholders_plain_app (s t : string) :
  noDollar s = true ->
  placeholders (s ++ t) = placeholders t.
Proof.
  induction s as [|c s IH]; simpl; [reflexivity|].
  intros H. apply andb_true_iff in H as [Hc Hs].
  apply negb_true_iff in Hc. rewrite Hc. simpl. auto.
Qed.

Lemma placeholders_plain (s : string) :
  noDollar s = true -> placeholders s = [].
Proof.
  intros H. rewrite <- (append_empty_r s). now rewrite placeholders_plain_app.
Qed.

Lemma noDollar_app (s t : string) :
  noDollar (s ++ t) = noDollar s && noDollar t.
Proof.
  induction s as [|c s IH]; simpl; [reflexivity|].
  now rewrite IH, andb_assoc.
Qed.

(** Decimal digits, as [string_of_nat] writes them. *)

Lemma readDigits_string_of_uint (d : Decimal.uint) (acc : nat) (t : string) :
  startsWithDigit t = false ->
  readDigits acc (NilEmpty.string_of_uint d ++ t) = Nat.of_uint_acc d acc.
Proof.
  intros Ht. revert acc.
  induction d; intros acc; simpl;
    try (rewrite IHd, Nat.tail_mul_spec; f_equal; unfold digitValue; simpl; lia).
  destruct t as [|c t]; simpl in *; [reflexivity | now rewrite Ht].
Qed.

Lemma noDollar_string_of_uint (d : Decimal.uint) :
  noDollar (NilEmpty.string_of_uint d) = true.
Proof. induction d; simpl; auto. Qed.

Lemma to_uint_not_Nil (n : nat) : Nat.to_uint n <> Decimal.Nil.
Proof.
  intros E. pose proof (DecimalNat.Unsigned.of_to n) as H.
  rewrite E in H. simpl in H. subst n. discriminate E.
Qed.

Lemma startsWithDigit_string_of_uint (d : Decimal.uint) (t : string) :
  d <> Decimal.Nil ->
  startsWithDigit (NilEmpty.string_of_uint d ++ t) = true.
Proof. destruct d; simpl; auto; congruence. Qed.

Lemma placeholders_placeholder_app (k : nat) (t : string) :
  startsWithDigit t = false ->
  placeholders (placeholder k ++ t) = k :: placeholders t.
Proof.
  intros Ht. unfold placeholder, string_of_nat. simpl.
  rewrite startsWithDigit_string_of_uint by apply to_uint_not_Nil.
  rewrite readDigits_string_of_uint by assumption.
  rewrite placeholders_plain_app by apply noDollar_string_of_uint.
  f_equal. apply (DecimalNat.Unsigned.of_to k).
Qed.

Lemma placeholders_placeholder (k : nat) : placeholders (placeholder k) = [k].
Proof.
  rewrite <- (append_empty_r (placeholder k)).
  now rewrite placeholders_placeholder_app.
Qed.

(** ** The binder *)

Lemma param_eq (v : value) (ps : list value) :
  param v ps = (placeholder (S (List.length ps)), (ps ++ [v])%list).
Proof.
  unfold param, placeholder. rewrite length_app, Nat.add_1_r. reflexivity.
Qed.

Lemma mapM_param (vs ps : list value) :
  mapM param vs ps
  = (placeholdersFrom (S (List.length ps)) (List.length vs), (ps ++ vs)%list).
Proof.
  revert ps. induction vs as [|v vs IH]; intros ps; simpl.
  - unfold ret. now rewrite app_nil_r.
  - unfold bind. rewrite param_eq, IH. unfold ret, placeholdersFrom.
    rewrite length_app, Nat.add_1_r, <- app_assoc. reflexivity.
Qed.

(** [applyPredicate] writes the fragment of the table and binds
    [boundValues]. *)
Lemma applyPredicate_eq (p : Predicate) (ps : list value) :
  applyPredicate p ps
  = (fragment p (List.length ps), (ps ++ boundValues p)%list).
Proof.
  destruct p as [c v|c vs|c vs|c v|cs v]; simpl.
  - destruct v; simpl; unfold bind, ret;
      rewrite ?param_eq, ?app_nil_r; reflexivity.
  - unfold bind, ret. now rewrite mapM_param.
  - unfold bind, ret. now rewrite mapM_param.
  - unfold bind, ret. now rewrite param_eq.
  - unfold bind, ret. rewrite param_eq. f_equal.
    destruct cs as [|c1 [|c2 cs]]; reflexivity.
Qed.

Lemma mapM_applyPredicate (preds : list Predicate) (ps : list value) :
  mapM applyPredicate preds ps
  = (fragments (List.length ps) preds, (ps ++ flat_map boundValues preds)%list).
Proof.
  revert ps. induction preds as [|p preds IH]; intros ps; simpl.
  - unfold ret. now rewrite app_nil_r.
  - unfold bind. rewrite applyPredicate_eq, IH. unfold ret.
    now rewrite length_app, <- app_assoc.
Qed.

Lemma addWhere_eq (q : string) (fs : list (option string)) :
  addWhere q fs = q ++ whereClause fs.
Proof.
  unfold addWhere, whereClause. destruct fs; simpl;
    [now rewrite append_empty_r | reflexivity].
Qed.

(** ** The statements, written out *)

Lemma findOneQuery_eq (table : string) (w : option (list Predicate)) :
  findOneQuery table w
  = {| query := "SELECT * FROM " ++ table
                ++ whereClause (fragments 0 (orEmpty w)) ++ " LIMIT 1";
       params := flat_map boundValues (orEmpty w) |}.
Proof.
  unfold findOneQuery, compile, bind, ret.
  rewrite mapM_applyPredicate, addWhere_eq. simpl.
  rewrite ?append_assoc. reflexivity.
Qed.

Lemma countQuery_eq (table : string) (w : list Predicate) :
  countQuery table w
  = {| query := "SELECT COUNT(*) AS cnt FROM " ++ table
                ++ whereClause (fragments 0 w);
       params := flat_map boundValues w |}.
Proof.
  unfold countQuery, compile, bind, ret.
  rewrite mapM_applyPredicate, addWhere_eq. simpl.
  rewrite ?append_assoc. reflexivity.
Qed.

Lemma deleteQuery_eq (table : string) (w : option (list Predicate)) :
  deleteQuery table w
  = {| query := "DELETE FROM " ++ table
                ++ whereClause (fragments 0 (orEmpty w));
       params := flat_map boundValues (orEmpty w) |}.
Proof.
  unfold deleteQuery, compile, bind, ret.
  rewrite mapM_applyPredicate, addWhere_eq. simpl.
  rewrite ?append_assoc. reflexivity.
Qed.

Lemma searchQuery_eq (table : string) (spec : SearchSpec) :
  let bound := flat_map boundValues (orEmpty (where_ spec)) in
  let n := List.length bound in
  let m := List.length (pagingValue (offset spec)) in
  searchQuery table spec
  = {| query := "SELECT * FROM " ++ table
                ++ whereClause (fragments 0 (orEmpty (where_ spec)))
                ++ orderClause (order spec)
                ++ pagingClause " OFFSET " (offset spec) n
                ++ pagingClause " LIMIT " (limit spec) (n + m);
       params := (bound ++ pagingValue (offset spec)
                        ++ pagingValue (limit spec))%list |}.
Proof.
  intros bound n m. subst bound n m.
  unfold searchQuery, compile, bind, ret.
  rewrite mapM_applyPredicate, addWhere_eq.
  destruct spec as [w o off lim]; cbn [where_ order offset limit].
  destruct o as [[|o os]|], off as [off|], lim as [lim|];
    cbn [nonEmpty orderClause pagingClause pagingValue];
    unfold bind, ret; rewrite ?param_eq;
    cbn [List.length app];
    rewrite ?length_app, ?app_nil_r, ?Nat.add_0_r, ?Nat.add_1_r,
            ?append_assoc, ?append_empty_r, <- ?app_assoc;
    reflexivity.
Qed.

Lemma saveQuery_eq (table : string) (r : record) :
  saveQuery table r
  = {| query := "INSERT INTO " ++ table ++ " (" ++ join ", " (Object_keys r)
                ++ ") VALUES ("
                ++ join ", " (placeholdersFrom 1 (List.length r)) ++ ")"
                ++ newline ++ "      ON CONFLICT (id) DO UPDATE SET "
                ++ join ", " (map (fun col => col ++ " = EXCLUDED." ++ col)
                                  (Object_keys r));
       params := Object_values r |}.
Proof.
  unfold saveQuery, compile, bind, ret.
  rewrite mapM_param. unfold Object_values. now rewrite length_map.
Qed.

Lemma mapM_assignments (entries : list (string * value)) (ps : list value) :
  mapM (fun '(column, v) => p <- param v ;; ret (column ++ " = " ++ p))
       entries ps
  = (assignments (List.length ps) entries, (ps ++ map snd entries)%list).
Proof.
  revert ps. induction entries as [|[c v] entries IH]; intros ps; simpl.
  - unfold ret. now rewrite app_nil_r.
  - unfold bind at 1 2. rewrite param_eq. unfold ret at 1.
    unfold bind. rewrite IH. unfold ret.
    now rewrite length_app, Nat.add_1_r, <- app_assoc.
Qed.

Lemma updateQuery_eq (localeCompare : string -> string -> Z)
      (table : string) (w : option (list Predicate)) (upd : record) :
  let bound := flat_map boundValues (orEmpty w) in
  let entries := sortedEntries localeCompare upd in
  updateQuery localeCompare table w upd
  = {| query := "UPDATE " ++ table ++ " SET "
                ++ join ", " (assignments (List.length bound) entries)
                ++ whereClause (fragments 0 (orEmpty w));
       params := (bound ++ map snd entries)%list |}.
Proof.
  intros bound entries. subst bound entries.
  unfold updateQuery, compile, bind, ret.
  rewrite mapM_applyPredicate.
  fold (sortedEntries localeCompare upd).
  rewrite mapM_assignments, addWhere_eq.
  cbn [List.length app]. rewrite ?append_assoc. reflexivity.
Qed.

(** ** Sorting *)

Section SortFacts.
Context {A : Type}.
Variable compareFn : A -> A -> Z.

Lemma insert_perm (x : A) (l : list A) :
  Permutation (insert compareFn x l) (x :: l).
Proof.
  induction l as [|y l IH]; simpl; [reflexivity|].
  destruct (0 <? compareFn x y)%Z; [|reflexivity].
  rewrite IH. apply perm_swap.
Qed.

Lemma sort_perm (l : list A) : Permutation (sort compareFn l) l.
Proof.
  induction l as [|x l IH]; simpl; [reflexivity|].
  rewrite insert_perm. now constructor.
Qed.

Lemma sort_length (l : list A) :
  List.length (sort compareFn l) = List.length l.
Proof. apply Permutation_length, sort_perm. Qed.

#[local] Abbreviation notAfter := (notAfter compareFn).

Hypothesis compare_total : forall x y, notAfter x y \/ notAfter y x.
Hypothesis compare_trans :
  forall x y z, notAfter x y -> notAfter y z -> notAfter x z.

Lemma insert_sorted (x : A) (l : list A) :
  Sorted notAfter l -> Sorted notAfter (insert compareFn x l).
Proof.
  induction 1 as [|y l Hl IH Hy]; simpl.
  - repeat constructor.
  - destruct (Z.ltb_spec 0 (compareFn x y)) as [Hgt|Hle].
    + constructor; [exact IH|].
      destruct Hy as [|z l Hz]; simpl.
      * constructor. destruct (compare_total x y) as [Hxy|Hyx];
          unfold notAfter in *; [lia | assumption].
      * destruct (0 <? compareFn x z)%Z; constructor; auto.
        destruct (compare_total x y) as [Hxy|Hyx];
          unfold notAfter in *; [lia | assumption].
    + constructor; [now constructor|]. constructor. exact Hle.
Qed.

Lemma sort_sorted (l : list A) : Sorted notAfter (sort compareFn l).
Proof.
  induction l as [|x l IH]; simpl; [constructor | now apply insert_sorted].
Qed.

Lemma sort_strongly_sorted (l : list A) :
  StronglySorted notAfter (sort compareFn l).
Proof.
  apply Sorted_StronglySorted; [|apply sort_sorted].
  intros x y z. apply compare_trans.
Qed.

(** Two sorted arrangements of the same elements are the same list, when
    the order tells the elements apart. *)
Lemma sorted_perm_unique (l1 l2 : list A) :
  (forall x y, List.In x l1 -> List.In y l1 ->
               notAfter x y -> notAfter y x -> x = y) ->
  StronglySorted notAfter l1 -> StronglySorted notAfter l2 ->
  Permutation l1 l2 -> l1 = l2.
Proof.
  intros Hanti H1. revert l2 Hanti.
  induction H1 as [|x l1 Hl1 IH Hx]; intros l2 Hanti H2 HP.
  - apply Permutation_nil in HP. now subst.
  - destruct H2 as [|y l2 Hl2 Hy].
    + apply Permutation_sym, Permutation_nil in HP. discriminate.
    + assert (Hxy : x = y).
      { assert (Hin1 : List.In x (y :: l2))
          by (eapply Permutation_in; [exact HP | now left]).
        assert (Hin2 : List.In y (x :: l1))
          by (eapply Permutation_in;
              [apply Permutation_sym; exact HP | now left]).
        destruct Hin1 as [Hin1|Hin1]; [now symmetry|].
        destruct Hin2 as [Hin2|Hin2]; [assumption|].
        rewrite Forall_forall in Hx, Hy.
        apply Hanti; [now left | now right | auto | auto]. }
      subst y. f_equal. apply IH; [|exact Hl2|].
      * intros a b Ha Hb. apply Hanti; now right.
      * eapply Permutation_cons_inv; exact HP.
Qed.
End SortFacts.

(** ** Placeholder tokens of fragments and clauses *)

Lemma concat_singletons (l : list nat) : List.concat (map (fun k => [k]) l) = l.
Proof. induction l as [|k l IH]; simpl; [reflexivity | now rewrite IH]. Qed.

Lemma placeholders_join (sep : string) (xs : list string) :
  (forall t, startsWithDigit (sep ++ t) = false) ->
  noDollar sep = true ->
  placeholders (join sep xs) = List.concat (map placeholders xs).
Proof.
  intros Hsep Hplain.
  induction xs as [|x xs IH]; [reflexivity|].
  destruct xs as [|y xs].
  - simpl. now rewrite app_nil_r.
  - change (join sep (x :: y :: xs)) with (x ++ sep ++ join sep (y :: xs)).
    rewrite placeholders_app by apply Hsep.
    rewrite placeholders_plain_app by exact Hplain.
    rewrite IH. reflexivity.
Qed.

Lemma noDollar_join (sep : string) (xs : list string) :
  noDollar sep = true -> forallb noDollar xs = true ->
  noDollar (join sep xs) = true.
Proof.
  intros Hsep. induction xs as [|x xs IH]; [reflexivity|].
  intros H. simpl in H. apply andb_true_iff in H as [Hx Hxs].
  destruct xs as [|y xs]; [exact Hx|].
  change (join sep (x :: y :: xs)) with (x ++ sep ++ join sep (y :: xs)).
  rewrite !noDollar_app, Hx, Hsep, IH; auto.
Qed.

Lemma placeholders_placeholdersFrom (a n : nat) :
  placeholders (join ", " (placeholdersFrom a n)) = seq a n.
Proof.
  rewrite placeholders_join; [|reflexivity|reflexivity].
  unfold placeholdersFrom. rewrite map_map.
  rewrite (map_ext _ (fun k => [k])) by apply placeholders_placeholder.
  apply concat_singletons.
Qed.

Lemma placeholders_comparison (c op : string) (k : nat) :
  noDollar c = true -> noDollar op = true ->
  placeholders (c ++ op ++ placeholder k) = [k].
Proof.
  intros Hc Hop.
  rewrite !placeholders_plain_app by assumption.
  apply placeholders_placeholder.
Qed.

Lemma placeholders_branches (cs : list string) (k : nat) :
  forallb noDollar cs = true ->
  List.concat (map placeholders
              (map (fun c => c ++ " ILIKE " ++ placeholder k) cs))
  = repeat k (List.length cs).
Proof.
  induction cs as [|c cs IH];
    cbn [map List.concat repeat List.length forallb]; [reflexivity|].
  intros H. apply andb_true_iff in H as [Hc Hcs].
  rewrite IH by assumption.
  now rewrite (placeholders_comparison c " ILIKE " k Hc eq_refl).
Qed.

Lemma fragment_placeholders (p : Predicate) (k : nat) :
  plainPredicate p = true ->
  placeholders (string_of_element (fragment p k)) = predicatePlaceholders p k.
Proof.
  unfold plainPredicate.
  destruct p as [c v|c vs|c vs|c v|cs v]; cbn [predicateColumns forallb];
    rewrite ?andb_true_r; intros Hc.
  - destruct v; cbn [fragment string_of_element predicatePlaceholders
                       boundValues List.length seq];
      try apply (placeholders_comparison c " = " (S k) Hc eq_refl).
    now rewrite placeholders_plain_app, placeholders_plain.
  - cbn [fragment string_of_element predicatePlaceholders boundValues].
    rewrite placeholders_plain_app by exact Hc.
    rewrite (placeholders_plain_app " IN (") by reflexivity.
    rewrite placeholders_app by reflexivity.
    rewrite placeholders_placeholdersFrom. simpl. apply app_nil_r.
  - cbn [fragment string_of_element predicatePlaceholders boundValues].
    rewrite placeholders_plain_app by exact Hc.
    rewrite (placeholders_plain_app " NOT IN (") by reflexivity.
    rewrite placeholders_app by reflexivity.
    rewrite placeholders_placeholdersFrom. simpl. apply app_nil_r.
  - cbn [fragment string_of_element predicatePlaceholders boundValues
           List.length seq].
    rewrite placeholders_placeholder_app by reflexivity.
    rewrite (placeholders_plain_app " = ANY(") by reflexivity.
    rewrite placeholders_plain_app by exact Hc. reflexivity.
  - cbn [predicatePlaceholders].
    rewrite <- (placeholders_branches cs (S k) Hc).
    unfold fragment.
    destruct cs as [|c1 [|c2 cs]]; cbn [map string_of_element].
    + reflexivity.
    + simpl. now rewrite app_nil_r.
    + set (bs := _ :: _ :: _).
      rewrite (placeholders_plain_app "(") by reflexivity.
      rewrite placeholders_app by reflexivity.
      rewrite placeholders_join; [|reflexivity|reflexivity].
      simpl. apply app_nil_r.
Qed.

Lemma fragments_placeholders (preds : list Predicate) (k : nat) :
  forallb plainPredicate preds = true ->
  List.concat (map placeholders (map string_of_element (fragments k preds)))
  = wherePlaceholders k preds.
Proof.
  revert k. induction preds as [|p preds IH]; intros k H; simpl;
    [reflexivity|].
  simpl in H. apply andb_true_iff in H as [Hp Hps].
  now rewrite fragment_placeholders, IH.
Qed.

Lemma whereClause_placeholders (preds : list Predicate) (k : nat) :
  forallb plainPredicate preds = true ->
  placeholders (whereClause (fragments k preds)) = wherePlaceholders k preds.
Proof.
  intros H. rewrite <- (fragments_placeholders preds k H).
  destruct preds as [|p preds]; [reflexivity|].
  unfold whereClause, join_elements.
  remember (fragments k (p :: preds)) as fs eqn:E.
  destruct fs as [|f fs]; [discriminate|].
  rewrite (placeholders_plain_app " WHERE ") by reflexivity.
  apply placeholders_join; reflexivity.
Qed.

(** A clause is empty or opens with a blank, so a token before it ends
    where the clause begins. *)
Lemma whereClause_quiet (fs : list (option string)) (t : string) :
  startsWithDigit t = false -> startsWithDigit (whereClause fs ++ t) = false.
Proof. destruct fs; simpl; auto. Qed.

Lemma orderClause_quiet (o : option (list ColumnOrder)) (t : string) :
  startsWithDigit t = false -> startsWithDigit (orderClause o ++ t) = false.
Proof. destruct o as [[|c cs]|]; simpl; auto. Qed.

Lemma pagingClause_quiet (kw : string) (n : option Z) (k : nat) (t : string) :
  startsWithDigit kw = false -> kw <> EmptyString ->
  startsWithDigit t = false ->
  startsWithDigit (pagingClause kw n k ++ t) = false.
Proof.
  intros Hkw Hne Ht. destruct n; simpl; [|exact Ht].
  destruct kw; [congruence | exact Hkw].
Qed.

Lemma orderClause_plain (o : option (list ColumnOrder)) :
  forallb (fun c => noDollar (column c)) (orEmpty o) = true ->
  noDollar (orderClause o) = true.
Proof.
  destruct o as [[|c cs]|]; cbn [orEmpty orderClause]; try reflexivity.
  intros H. rewrite noDollar_app. apply andb_true_iff. split; [reflexivity|].
  apply noDollar_join; [reflexivity|].
  rewrite forallb_forall in *. intros s Hs.
  apply in_map_iff in Hs as (x & <- & Hx).
  rewrite !noDollar_app, (H x Hx). now destruct (direction x).
Qed.

Lemma pagingClause_placeholders (kw : string) (n : option Z) (k : nat) :
  noDollar kw = true ->
  placeholders (pagingClause kw n k)
  = seq (S k) (List.length (pagingValue n)).
Proof.
  intros Hkw. destruct n; simpl; [|reflexivity].
  rewrite placeholders_plain_app by exact Hkw.
  apply placeholders_placeholder.
Qed.

Lemma assignments_placeholders (entries : list (string * value)) (k : nat) :
  forallb noDollar (map fst entries) = true ->
  placeholders (join ", " (assignments k entries))
  = seq (S k) (List.length entries).
Proof.
  intros H. rewrite placeholders_join; [|reflexivity|reflexivity].
  revert k H. induction entries as [|[c v] entries IH]; intros k H;
    cbn [assignments map List.concat List.length seq]; [reflexivity|].
  cbn [map fst forallb] in H. apply andb_true_iff in H as [Hc Hcs].
  rewrite IH by assumption.
  now rewrite (placeholders_comparison c " = " (S k) Hc eq_refl).
Qed.

(** ** The order of the indices *)








(** ** Placeholder tokens of whole statements *)

Lemma findOneQuery_placeholders (table : string) (w : option (list Predicate)) :
  noDollar table = true -> plainWhere w = true ->
  placeholders (query (findOneQuery table w)) = wherePlaceholders 0 (orEmpty w).
Proof.
  intros Ht Hw. rewrite findOneQuery_eq. cbn [query].
  rewrite (placeholders_plain_app "SELECT * FROM ") by reflexivity.
  rewrite placeholders_plain_app by exact Ht.
  rewrite placeholders_app by reflexivity.
  rewrite whereClause_placeholders by exact Hw.
  apply app_nil_r.
Qed.

Lemma countQuery_placeholders (table : string) (w : list Predicate) :
  noDollar table = true -> forallb plainPredicate w = true ->
  placeholders (query (countQuery table w)) = wherePlaceholders 0 w.
Proof.
  intros Ht Hw. rewrite countQuery_eq. cbn [query].
  rewrite (placeholders_plain_app "SELECT COUNT(*) AS cnt FROM ") by reflexivity.
  rewrite placeholders_plain_app by exact Ht.
  now apply whereClause_placeholders.
Qed.

Lemma deleteQuery_placeholders (table : string) (w : option (list Predicate)) :
  noDollar table = true -> plainWhere w = true ->
  placeholders (query (deleteQuery table w)) = wherePlaceholders 0 (orEmpty w).
Proof.
  intros Ht Hw. rewrite deleteQuery_eq. cbn [query].
  rewrite (placeholders_plain_app "DELETE FROM ") by reflexivity.
  rewrite placeholders_plain_app by exact Ht.
  now apply whereClause_placeholders.
Qed.

Lemma searchQuery_placeholders (table : string) (spec : SearchSpec) :
  noDollar table = true -> plainSpec spec = true ->
  let n := List.length (flat_map boundValues (orEmpty (where_ spec))) in
  let m := List.length (pagingValue (offset spec)) in
  placeholders (query (searchQuery table spec))
  = (wherePlaceholders 0 (orEmpty (where_ spec))
     ++ seq (S n) m
     ++ seq (S (n + m)) (List.length (pagingValue (limit spec))))%list.
Proof.
  intros Ht Hs n m. apply andb_true_iff in Hs as [Hw Ho].
  rewrite searchQuery_eq. cbn [query]. fold n. fold m.
  rewrite (placeholders_plain_app "SELECT * FROM ") by reflexivity.
  rewrite placeholders_plain_app by exact Ht.
  rewrite placeholders_app.
  2:{ apply orderClause_quiet, pagingClause_quiet; try easy.
      rewrite <- (append_empty_r (pagingClause _ _ _)).
      apply pagingClause_quiet; easy. }
  rewrite whereClause_placeholders by exact Hw.
  rewrite placeholders_plain_app by now apply orderClause_plain.
  rewrite placeholders_app.
  2:{ rewrite <- (append_empty_r (pagingClause _ _ _)).
      apply pagingClause_quiet; easy. }
  rewrite !pagingClause_placeholders by reflexivity.
  reflexivity.
Qed.

Lemma saveQuery_placeholders (table : string) (r : record) :
  noDollar table = true -> plainRecord r = true ->
  placeholders (query (saveQuery table r)) = seq 1 (List.length r).
Proof.
  intros Ht Hr. rewrite saveQuery_eq. cbn [query].
  rewrite (placeholders_plain_app "INSERT INTO ") by reflexivity.
  rewrite placeholders_plain_app by exact Ht.
  rewrite (placeholders_plain_app " (") by reflexivity.
  rewrite placeholders_plain_app by now apply noDollar_join.
  rewrite (placeholders_plain_app ") VALUES (") by reflexivity.
  rewrite placeholders_app by reflexivity.
  rewrite placeholders_placeholdersFrom.
  rewrite (placeholders_plain_app ")") by reflexivity.
  rewrite (placeholders_plain_app newline) by reflexivity.
  rewrite (placeholders_plain_app "      ON CONFLICT (id) DO UPDATE SET ")
    by reflexivity.
  rewrite placeholders_plain; [apply app_nil_r|].
  apply noDollar_join; [reflexivity|].
  unfold plainRecord in Hr. rewrite forallb_forall in *.
  intros s Hs. apply in_map_iff in Hs as (c & <- & Hc).
  rewrite !noDollar_app, (Hr c Hc). reflexivity.
Qed.

Lemma updateQuery_placeholders (localeCompare : string -> string -> Z)
      (table : string) (w : option (list Predicate)) (upd : record) :
  noDollar table = true -> plainWhere w = true -> plainRecord upd = true ->
  placeholders (query (updateQuery localeCompare table w upd))
  = (seq (S (List.length (flat_map boundValues (orEmpty w))))
         (List.length upd)
     ++ wherePlaceholders 0 (orEmpty w))%list.
Proof.
  intros Ht Hw Hu. rewrite updateQuery_eq. cbn [query].
  rewrite (placeholders_plain_app "UPDATE ") by reflexivity.
  rewrite placeholders_plain_app by exact Ht.
  rewrite (placeholders_plain_app " SET ") by reflexivity.
  rewrite placeholders_app.
  2:{ rewrite <- (append_empty_r (whereClause _)).
      now apply whereClause_quiet. }
  rewrite whereClause_placeholders by exact Hw.
  rewrite assignments_placeholders.
  - unfold sortedEntries, Object_entries. now rewrite sort_length.
  - unfold plainRecord, Object_keys in Hu. rewrite forallb_forall in *.
    intros s Hs. apply Hu.
    eapply Permutation_in; [|exact Hs].
    apply Permutation_map. apply sort_perm.
Qed.

(** ** Normalizing a query text *)

Lemma words_head (s : string) (w : string) (ws : list string) :
  words s = w :: ws ->
  exists c w', w = String c w' /\ isWhitespace c = false.
Proof.
  revert w ws. induction s as [|c s IH]; intros w ws; simpl; [discriminate|].
  destruct (isWhitespace c) eqn:Ec; [apply IH|].
  destruct s as [|c' s]; [intros [= <- <-]; eauto|].
  destruct (isWhitespace c'); [intros [= <- <-]; eauto|].
  destruct (words (String c' s)); intros [= <- <-]; eauto.
Qed.

Lemma words_nonspace (c : ascii) (s : string) :
  isWhitespace c = false -> words (String c s) <> [].
Proof.
  intros Hc. simpl. rewrite Hc.
  destruct s as [|c' s]; [discriminate|].
  destruct (isWhitespace c'); [discriminate|].
  destruct (words (String c' s)); discriminate.
Qed.

Lemma join_words_empty (s : string) :
  join " " (words s) = "" -> words s = [].
Proof.
  destruct (words s) as [|w ws] eqn:E; [reflexivity|].
  destruct (words_head s w ws E) as (c & w' & -> & _).
  destruct ws; discriminate.
Qed.

Lemma join_cons_char (c : ascii) (w : string) (ws : list string) :
  join " " (String c w :: ws) = String c (join " " (w :: ws)).
Proof. destruct ws; reflexivity. Qed.

Lemma join_single_then (c : ascii) (ws : list string) :
  join " " (String c "" :: ws) = String c (blankThen ws).
Proof. destruct ws; reflexivity. Qed.

Lemma trimEnd_cons_nonspace (c : ascii) (s : string) :
  isWhitespace c = false -> trimEnd (String c s) = String c (trimEnd s).
Proof. intros Hc. simpl. rewrite Hc. now destruct (trimEnd s). Qed.

Lemma trimEnd_replaceWhitespace (s : string) :
  trimEnd (replaceWhitespace true s) = join " " (words s)
  /\ trimEnd (replaceWhitespace false s)
     = (if startsWithSpace s then blankThen (words s) else join " " (words s)).
Proof.
  induction s as [|c s [IHt IHf]]; [split; reflexivity|].
  cbn [replaceWhitespace startsWithSpace].
  destruct (isWhitespace c) eqn:Ec.
  - assert (Ew : words (String c s) = words s) by (simpl; now rewrite Ec).
    rewrite Ew. split; [exact IHt|].
    cbn [trimEnd]. rewrite IHt.
    destruct (join " " (words s)) eqn:Ej.
    + apply join_words_empty in Ej. now rewrite Ej.
    + destruct (words s); [discriminate|]. cbn [blankThen]. now rewrite Ej.
  - rewrite trimEnd_cons_nonspace by exact Ec. rewrite IHf.
    assert (E : String c (if startsWithSpace s then blankThen (words s)
                          else join " " (words s))
                = join " " (words (String c s))).
    { cbn [words]. rewrite Ec.
      destruct s as [|c' s]; [reflexivity|].
      cbn [startsWithSpace].
      destruct (isWhitespace c') eqn:Ec'.
      - now rewrite join_single_then.
      - pose proof (words_nonspace c' s Ec') as Hne.
        destruct (words (String c' s)) as [|w ws]; [congruence|].
        now rewrite join_cons_char. }
    split; exact E.
Qed.

Lemma trimStart_join_words (s : string) :
  trimStart (join " " (words s)) = join " " (words s).
Proof.
  destruct (words s) as [|w ws] eqn:E; [reflexivity|].
  destruct (words_head s w ws E) as (c & w' & -> & Hc).
  rewrite join_cons_char. simpl. now rewrite Hc.
Qed.

(** Normalizing writes the words of the text with one blank between
    neighbours: runs of white space collapse, the ends are trimmed. *)
Lemma normalizeQuery_words (q : string) :
  normalizeQuery q = join " " (words q).
Proof.
  unfold normalizeQuery, trim.
  destruct (trimEnd_replaceWhitespace q) as [_ ->].
  destruct (startsWithSpace q); [|apply trimStart_join_words].
  destruct (words q) as [|w ws] eqn:E; [reflexivity|].
  cbn [blankThen]. change (trimStart (" " ++ join " " (w :: ws)))
    with (trimStart (join " " (w :: ws))).
  rewrite <- E. apply trimStart_join_words.
Qed.

(** ** Sorting by code units: a comparator to run the statements with *)

Lemma codeUnitCompare_le (a b : string) :
  (codeUnitCompare a b <= 0)%Z <-> String.compare a b <> Gt.
Proof.
  unfold codeUnitCompare. destruct (String.compare a b); split;
    intros; try lia; congruence.
Qed.

Lemma string_compare_trans (a b c : string) :
  String.compare a b <> Gt -> String.compare b c <> Gt ->
  String.compare a c <> Gt.
Proof.
  revert b c. induction a as [|x a IH]; intros [|y b] [|z c]; simpl;
    try congruence.
  destruct (Ascii.compare x y) eqn:Exy; try congruence;
    destruct (Ascii.compare y z) eqn:Eyz; try congruence.
  - apply Ascii.compare_eq_iff in Exy, Eyz. subst.
    assert (E : Ascii.compare z z = Eq) by apply N.compare_refl.
    rewrite E. apply IH.
  - apply Ascii.compare_eq_iff in Exy. subst. rewrite Eyz. congruence.
  - apply Ascii.compare_eq_iff in Eyz. subst. rewrite Exy. congruence.
  - intros _ _.
    unfold Ascii.compare in *. rewrite N.compare_lt_iff in Exy, Eyz.
    assert (E : (N_of_ascii x ?= N_of_ascii z)%N = Lt)
      by (apply N.compare_lt_iff; lia).
    rewrite E. congruence.
Qed.

Lemma codeUnitCompare_total (a b : string) :
  (codeUnitCompare a b <= 0)%Z \/ (codeUnitCompare b a <= 0)%Z.
Proof.
  rewrite !codeUnitCompare_le, (String.compare_antisym a b).
  destruct (String.compare b a); simpl; [left|right|left]; congruence.
Qed.

Lemma codeUnitCompare_trans (a b c : string) :
  (codeUnitCompare a b <= 0)%Z -> (codeUnitCompare b c <= 0)%Z ->
  (codeUnitCompare a c <= 0)%Z.
Proof. rewrite !codeUnitCompare_le. apply string_compare_trans. Qed.

Lemma codeUnitCompare_antisym (a b : string) :
  (codeUnitCompare a b <= 0)%Z -> (codeUnitCompare b a <= 0)%Z -> a = b.
Proof.
  rewrite !codeUnitCompare_le, (String.compare_antisym a b).
  destruct (String.compare b a) eqn:E; simpl; try congruence.
  intros _ _. symmetry. now apply String.compare_eq_iff.
Qed.

(** ** The statements the repository's tests expect *)

Example findById_statement :
  findByIdQuery "table" "id"
  = {| query := "SELECT * FROM table WHERE id = $1 LIMIT 1";
       params := [VStr "id"] |}.
Proof. reflexivity. Qed.

Example search_all_clauses :
  searchQuery "table"
    {| where_ := Some [Equals "id" (VStr "id")];
       order := Some [{| column := "id"; direction := asc |}];
       offset := Some 0%Z; limit := Some 1%Z |}
  = {| query := "SELECT * FROM table WHERE id = $1 ORDER BY id ASC OFFSET $2 LIMIT $3";
       params := [VStr "id"; VNum 0; VNum 1] |}.
Proof. reflexivity. Qed.

Example search_combined_predicates :
  searchQuery "table"
    {| where_ := Some [Equals "status" (VStr "active");
                       In_ "category" [VStr "news"; VStr "blog"];
                       ArrayContains "tags" (VStr "featured")];
       order := None; offset := None; limit := None |}
  = {| query := "SELECT * FROM table WHERE status = $1 AND category IN ($2, $3) AND $4 = ANY(tags)";
       params := [VStr "active"; VStr "news"; VStr "blog"; VStr "featured"] |}.
Proof. reflexivity. Qed.

Example search_textSearch_with_equals :
  searchQuery "table"
    {| where_ := Some [Equals "status" (VStr "active");
                       TextSearch ["name"; "email"] "john"];
       order := None; offset := None; limit := None |}
  = {| query := "SELECT * FROM table WHERE status = $1 AND (name ILIKE $2 OR email ILIKE $2)";
       params := [VStr "active"; VStr "%john%"] |}.
Proof. reflexivity. Qed.

Example search_notIn :
  searchQuery "table"
    {| where_ := Some [NotIn "status" [VStr "deleted"; VStr "archived"]];
       order := None; offset := None; limit := None |}
  = {| query := "SELECT * FROM table WHERE status NOT IN ($1, $2)";
       params := [VStr "deleted"; VStr "archived"] |}.
Proof. reflexivity. Qed.

Example update_sorts_fields :
  updateQuery codeUnitCompare "t" (Some [Equals "id" (VStr "1")])
              [("b", VNum 2); ("a", VNum 1)]
  = {| query := "UPDATE t SET a = $2, b = $3 WHERE id = $1";
       params := [VStr "1"; VNum 1; VNum 2] |}.
Proof. reflexivity. Qed.

Example save_normalized :
  normalizeQuery
    (query (saveQuery "users" [("id", VStr "1"); ("name", VStr "Alice")]))
  = "INSERT INTO users (id, name) VALUES ($1, $2) ON CONFLICT (id) DO UPDATE SET id = EXCLUDED.id, name = EXCLUDED.name".
Proof. reflexivity. Qed.

Example normalize_spacedText :
  normalizeQuery spacedText = "SELECT * FROM users"
  /\ words spacedText = ["SELECT"; "*"; "FROM"; "users"].
Proof. split; reflexivity. Qed.

Example stringify_parameters :
  JSON_stringify (Some [VStr "a"; VNum (-3); VNull; VUndefined;
                        VArr [VBool true]; VObj [("k", VUndefined); ("n", VNum 1)]])
  = Some ("[" ++ dquote ++ "a" ++ dquote ++ ",-3,null,null,[true],{"
          ++ dquote ++ "n" ++ dquote ++ ":1}]").
Proof. reflexivity. Qed.

(** The stub finds the user it knows, and for another id returns nothing,
    after a warning. *)
Example findById_known_user :
  findById (Error := unit) "users" "1" {| pool := usersStub; trace := [] |}
  = (inr (Some alice),
     {| pool := usersStub;
        trace := [Executed "SELECT * FROM users WHERE id = $1 LIMIT 1"
                           (Some [VStr "1"])] |}).
Proof. reflexivity. Qed.

Example findById_unknown_user :
  findById (Error := unit) "users" "2" {| pool := usersStub; trace := [] |}
  = (inr None,
     {| pool :=
          {| PoolStub.queries := PoolStub.queries usersStub;
             PoolStub.console :=
               [{| warned_query := "SELECT * FROM users WHERE id = $1 LIMIT 1";
                   warned_params := Some [VStr "2"] |}] |};
        trace := [Executed "SELECT * FROM users WHERE id = $1 LIMIT 1"
                           (Some [VStr "2"])] |}).
Proof. reflexivity. Qed.

(** ** The writes and their notifications *)

Lemma save_afterWrite {Error Pool : Type} `{DatabasePool Error Pool}
      (w : World) (table : string) (r : record) :
  save table r w = afterWrite w (saveQuery table r) (saved r).
Proof.
  unfold save, afterWrite, await, query_, emit.
  destruct (pool_query _ _ _) as [[err|res] p]; cbn [pool trace];
    rewrite <- ?app_assoc; reflexivity.
Qed.

Lemma update_afterWrite {Error Pool : Type} `{DatabasePool Error Pool}
      (localeCompare : string -> string -> Z)
      (w : World) (table : string) (where_ : option (list Predicate))
      (upd : record) :
  update localeCompare table where_ upd w
  = afterWrite w (updateQuery localeCompare table where_ upd)
               (updated where_ upd).
Proof.
  unfold update, afterWrite, await, query_, emit.
  destruct (pool_query _ _ _) as [[err|res] p]; cbn [pool trace];
    rewrite <- ?app_assoc; reflexivity.
Qed.

Lemma delete_afterWrite {Error Pool : Type} `{DatabasePool Error Pool}
      (w : World) (table : string) (where_ : option (list Predicate)) :
  delete table where_ w
  = afterWrite w (deleteQuery table where_) (deleted where_).
Proof.
  unfold delete, afterWrite, await, query_, emit.
  destruct (pool_query _ _ _) as [[err|res] p]; cbn [pool trace];
    rewrite <- ?app_assoc; reflexivity.
Qed.

(** ** The stub's search through its registry *)

Lemma strictEquals_true (a b : option string) :
  strictEquals a b = true <-> a = b.
Proof.
  destruct a as [x|], b as [y|]; simpl; try (split; congruence).
  rewrite String.eqb_eq. split; congruence.
Qed.

Lemma find_map_first {A B : Type} (g : A -> B) (f : B -> bool) (l : list A) :
  (exists before x after,
      l = (before ++ x :: after)%list
      /\ f (g x) = true
      /\ Forall (fun y => f (g y) = false) before
      /\ find f (map g l) = Some (g x))
  \/ (Forall (fun y => f (g y) = false) l /\ find f (map g l) = None).
Proof.
  induction l as [|a l IH]; [right; split; [constructor | reflexivity]|].
  simpl. destruct (f (g a)) eqn:Ea.
  - left. exists [], a, l. repeat split; auto.
  - destruct IH as [(before & x & after & -> & Hx & Hb & Hf)|[Hall Hf]].
    + left. exists (a :: before), x, after. repeat split; auto.
    + right. split; auto.
Qed.

Lemma matches_stubMatches (e : StubbedQuery) (q : string)
      (ps : option (list value)) :
  PoolStub.matches (normalizeQuery q) ps
    {| stub_query := normalizeQuery (stub_query e);
       stub_params := stub_params e;
       stub_result := stub_result e |} = true
  <-> stubMatches e q ps.
Proof.
  unfold PoolStub.matches, stubMatches, sameWords. cbn [stub_query stub_params].
  rewrite andb_true_iff, String.eqb_eq, strictEquals_true.
  now rewrite !normalizeQuery_words.
Qed.

Lemma Forall_not_stubMatches (l : list StubbedQuery) (q : string)
      (ps : option (list value)) :
  Forall (fun y =>
            PoolStub.matches (normalizeQuery q) ps
              {| stub_query := normalizeQuery (stub_query y);
                 stub_params := stub_params y;
                 stub_result := stub_result y |} = false) l ->
  Forall (fun y => ~ stubMatches y q ps) l.
Proof.
  apply Forall_impl. intros y Hy Hm.
  apply matches_stubMatches in Hm. congruence.
Qed.

(** ** Statements in bind order *)







Lemma updateQuery_params_length (localeCompare : string -> string -> Z)
      (table : string) (w : option (list Predicate)) (upd : record) :
  List.length (params (updateQuery localeCompare table w upd))
  = List.length (flat_map boundValues (orEmpty w)) + List.length upd.
Proof.
  rewrite updateQuery_eq. cbn [params].
  rewrite length_app, length_map. unfold sortedEntries, Object_entries.
  now rewrite sort_length.
Qed.

(** ** The SET clause *)

Lemma StronglySorted_map_fst {K V : Type} (R : K -> K -> Prop)
      (l : list (K * V)) :
  StronglySorted (fun a b => R (fst a) (fst b)) l ->
  StronglySorted R (map fst l).
Proof.
  induction 1 as [|x l Hl IH Hx]; simpl; constructor; [exact IH|].
  apply Forall_forall. intros k Hk. apply in_map_iff in Hk as (y & <- & Hy).
  rewrite Forall_forall in Hx. now apply Hx.
Qed.

Lemma NoDup_keys_inj {K V : Type} (l : list (K * V)) (x y : K * V) :
  NoDup (map fst l) -> List.In x l -> List.In y l -> fst x = fst y -> x = y.
Proof.
  induction l as [|a l IH]; simpl; [tauto|].
  intros Hnd Hx Hy E. inversion Hnd as [|k ks Hnotin Hnd']; subst.
  destruct Hx as [->|Hx], Hy as [->|Hy]; auto.
  - exfalso. apply Hnotin. rewrite E. now apply in_map.
  - exfalso. apply Hnotin. rewrite <- E. now apply in_map.
Qed.

(** * The claims *)




(** C2, as the code has it.  The stub normalizes the incoming text to its
    words joined by single blanks.  Either some entry of the registry is the
    first, in registration order, whose normalized text is the same and
    whose parameters have the same JSON text as the incoming ones: the call
    returns its canned result and warns nothing.  Or no entry is such: the
    call returns no rows, and warns once; it never fails.  The parameters
    are values of the model: [undefined], [null], booleans, integer-valued
    numbers, strings, and arrays and objects of these. *)
Theorem C2_stub_first_match_by_json
        (registry : list StubbedQuery) (q : string)
        (ps : option (list value)) :
  let stub := PoolStub.new (Some registry) in
  normalizeQuery q = join " " (words q)
  /\ ((exists before e after,
          registry = (before ++ e :: after)%list
          /\ stubMatches e q ps
          /\ Forall (fun e' => ~ stubMatches e' q ps) before
          /\ PoolStub.query stub q ps = (stub_result e, stub))
      \/ (Forall (fun e' => ~ stubMatches e' q ps) registry
          /\ PoolStub.query stub q ps
             = ({| rows := [] |},
                {| PoolStub.queries := PoolStub.queries stub;
                   PoolStub.console :=
                     [{| warned_query := join " " (words q);
                         warned_params := ps |}] |}))).
Proof.
  cbv zeta. split; [apply normalizeQuery_words|].
  unfold PoolStub.query, PoolStub.new.
  cbn [PoolStub.queries PoolStub.console orEmpty].
  match goal with
  | |- context [find ?f (map ?g registry)] =>
      destruct (find_map_first g f registry)
        as [(before & e & after & Hreg & He & Hb & Hf)|[Hall Hf]]
  end.
  - left. exists before, e, after. rewrite Hf. cbn [stub_result].
    split; [exact Hreg|]. split; [now apply matches_stubMatches|].
    split; [now apply Forall_not_stubMatches | reflexivity].
  - right. rewrite Hf, normalizeQuery_words.
    split; [now apply Forall_not_stubMatches | reflexivity].
Qed.

(** A registry holding one entry for [status IN ($1)] with the parameter
    [null] answers the search whose parameter is [undefined]: the two
    parameter lists differ, their JSON texts do not. *)
Lemma C2_null_entry_answers_undefined :
  stub_params (statusInStub [VNull] [VObj [("id", VStr "1")]])
  <> Some (params (statusIn [VUndefined]))
  /\ fst (PoolStub.query
            (PoolStub.new (Some [statusInStub [VNull] [VObj [("id", VStr "1")]]]))
            (query (statusIn [VUndefined]))
            (Some (params (statusIn [VUndefined]))))
     = {| rows := [VObj [("id", VStr "1")]] |}.
Proof. split; [discriminate | reflexivity]. Qed.

(** C3. For a non-empty column list, [TextSearch(cols, v)] binds once, the
    string [%v%], and writes one [col ILIKE $k] per column, all with the
    index [k] of that one value, joined by [ OR ] and put in parentheses
    exactly when there is more than one column. *)
Theorem C3_textSearch_shares_one_placeholder
        (columns : list string) (v : string) (ps : list value) :
  columns <> [] ->
  let k := S (List.length ps) in
  let branches := map (fun col => col ++ " ILIKE " ++ placeholder k) columns in
  applyPredicate (TextSearch columns v) ps
  = (Some (if (1 <? List.length columns)%nat
           then "(" ++ join " OR " branches ++ ")"
           else join " OR " branches),
     (ps ++ [VStr ("%" ++ v ++ "%")])%list).
Proof.
  intros Hne k branches. rewrite applyPredicate_eq.
  subst k branches. cbn [boundValues]. f_equal.
  destruct columns as [|c1 [|c2 cs]]; [congruence | reflexivity | reflexivity].
Qed.

(** [TextSearch(["a","b"], "x")] on a fresh binder. *)
Lemma C3_textSearch_witness :
  applyPredicate (TextSearch ["a"; "b"] "x") []
  = (Some "(a ILIKE $1 OR b ILIKE $1)", [VStr "%x%"]).
Proof.
  exact (C3_textSearch_shares_one_placeholder ["a"; "b"] "x" []
           ltac:(discriminate)).
Defined.

(** C4. [Equals(col, null)] writes [col IS NULL] and binds nothing;
    [Equals(col, v)] with [v] not null writes [col = $k] where [$k] is what
    binding [v] returns, and that bind appends exactly [v]. *)
Theorem C4_equals_null_and_value
        (col : string) (v : value) (ps : list value) :
  v <> VNull ->
  applyPredicate (Equals col VNull) ps = (Some (col ++ " IS NULL"), ps)
  /\ applyPredicate (Equals col v) ps
     = (Some (col ++ " = " ++ fst (param v ps)), snd (param v ps))
  /\ param v ps
     = ("$" ++ string_of_nat (S (List.length ps)), (ps ++ [v])%list).
Proof.
  intros Hv. split; [reflexivity|]. split; [|apply param_eq].
  destruct v; try congruence; reflexivity.
Qed.

(** [Equals] on [id], with [null] and with the string [1], on a binder
    that already holds one value. *)
Lemma C4_equals_witness :
  applyPredicate (Equals "id" VNull) [VNum 7] = (Some "id IS NULL", [VNum 7])
  /\ applyPredicate (Equals "id" (VStr "1")) [VNum 7]
     = (Some "id = $2", [VNum 7; VStr "1"])
  /\ param (VStr "1") [VNum 7] = ("$2", [VNum 7; VStr "1"]).
Proof.
  exact (C4_equals_null_and_value "id" (VStr "1") [VNum 7]
           ltac:(discriminate)).
Defined.

(** C5, as the code has it.  The SET clause of the compiled UPDATE lists
    [column = $k] for the entries of the update map, stably sorted by column
    name in the order of [localeCompare]: the collation of the host, not the
    order of code units.  When that order tells the column names of the map
    apart, two maps with the same entries compile to the same statement;
    names that compare as equal are not covered.  With [b] after [a] in
    that order, the fields [{b, a}] are written [a] first. *)
Theorem C5_update_set_clause_sorted
        (localeCompare : string -> string -> Z)
        (table : string) (w : option (list Predicate)) (upd upd' : record) :
  (forall a b, (localeCompare a b <= 0)%Z \/ (localeCompare b a <= 0)%Z) ->
  (forall a b c, (localeCompare a b <= 0)%Z -> (localeCompare b c <= 0)%Z ->
                 (localeCompare a c <= 0)%Z) ->
  let n := List.length (flat_map boundValues (orEmpty w)) in
  let entries := sortedEntries localeCompare upd in
  query (updateQuery localeCompare table w upd)
  = "UPDATE " ++ table ++ " SET " ++ join ", " (assignments n entries)
    ++ whereClause (fragments 0 (orEmpty w))
  /\ Permutation entries upd
  /\ StronglySorted (fun a b => (localeCompare a b <= 0)%Z) (map fst entries)
  /\ ((forall a b,
         List.In a (Object_keys upd) -> List.In b (Object_keys upd) ->
         (localeCompare a b <= 0)%Z -> (localeCompare b a <= 0)%Z -> a = b) ->
      NoDup (Object_keys upd) -> Permutation upd upd' ->
      updateQuery localeCompare table w upd'
      = updateQuery localeCompare table w upd)
  /\ ((0 < localeCompare "b" "a")%Z ->
      forall x y,
        query (updateQuery localeCompare table w [("b", x); ("a", y)])
        = "UPDATE " ++ table ++ " SET a = " ++ placeholder (S n)
          ++ ", b = " ++ placeholder (S (S n))
          ++ whereClause (fragments 0 (orEmpty w))).
Proof.
  intros Htotal Htrans n entries. subst n entries.
  set (cmp := fun a b : string * value => localeCompare (fst a) (fst b)).
  assert (Hsorted : forall l, StronglySorted (notAfter cmp) (sort cmp l)).
  { intros l. apply sort_strongly_sorted.
    - intros x y. apply Htotal.
    - intros x y z. apply Htrans. }
  split; [now rewrite updateQuery_eq|].
  split; [apply sort_perm|].
  split; [apply StronglySorted_map_fst, (Hsorted upd)|].
  split.
  2:{ intros Hba x y. rewrite updateQuery_eq. cbn [query].
      unfold sortedEntries, Object_entries. cbn [sort insert fst].
      apply Z.ltb_lt in Hba. rewrite Hba.
      cbn [assignments join]. now rewrite !append_assoc. }
  intros Hanti Hnd Hperm. rewrite !updateQuery_eq. unfold sortedEntries.
  fold cmp. unfold Object_entries.
  assert (E : sort cmp upd = sort cmp upd').
  { apply (sorted_perm_unique cmp); try apply Hsorted.
    - intros x y Hx Hy Hxy Hyx.
      assert (Hx' : List.In x upd)
        by (eapply Permutation_in; [apply sort_perm | exact Hx]).
      assert (Hy' : List.In y upd)
        by (eapply Permutation_in; [apply sort_perm | exact Hy]).
      apply (NoDup_keys_inj upd); auto.
      apply Hanti; auto; unfold Object_keys; now apply in_map.
    - rewrite sort_perm, Hperm. symmetry. apply sort_perm. }
  now rewrite E.
Qed.

(** The fields [{b: 2, a: 1}] under comparison by code units: [a] is
    written before [b], and the map written in the other order compiles to
    the same statement. *)
Lemma C5_update_witness :
  query (updateQuery codeUnitCompare "t" None [("b", VNum 2); ("a", VNum 1)])
  = "UPDATE t SET a = $1, b = $2"
  /\ updateQuery codeUnitCompare "t" None [("a", VNum 1); ("b", VNum 2)]
     = updateQuery codeUnitCompare "t" None [("b", VNum 2); ("a", VNum 1)].
Proof.
  destruct (C5_update_set_clause_sorted codeUnitCompare "t" None
              [("b", VNum 2); ("a", VNum 1)] [("a", VNum 1); ("b", VNum 2)]
              codeUnitCompare_total codeUnitCompare_trans)
    as (Hquery & _ & _ & Hsame & _).
  split; [exact Hquery|].
  apply Hsame; [|repeat constructor; simpl; intuition discriminate
                |apply perm_swap].
  intros a b _ _. apply codeUnitCompare_antisym.
Defined.

(** Under a comparator that is total and transitive and gives no weight
    to U+0001, the names [a] and [a] followed by U+0001 are two names that
    compare as equal: the stable sort leaves them as the map has them, and
    the two orders of the same map compile to two statements. *)
Lemma C5_equal_names_keep_insertion_order :
  (forall a b, (controlBlindCompare a b <= 0)%Z
               \/ (controlBlindCompare b a <= 0)%Z)
  /\ (forall a b c, (controlBlindCompare a b <= 0)%Z ->
                    (controlBlindCompare b c <= 0)%Z ->
                    (controlBlindCompare a c <= 0)%Z)
  /\ controlBlindCompare nameWithControl "a" = 0%Z
  /\ nameWithControl <> "a"
  /\ Permutation [(nameWithControl, VNum 1); ("a", VNum 2)]
                 [("a", VNum 2); (nameWithControl, VNum 1)]
  /\ query (updateQuery controlBlindCompare "t" None
                        [(nameWithControl, VNum 1); ("a", VNum 2)])
     = "UPDATE t SET " ++ nameWithControl ++ " = $1, a = $2"
  /\ query (updateQuery controlBlindCompare "t" None
                        [("a", VNum 2); (nameWithControl, VNum 1)])
     = "UPDATE t SET a = $1, " ++ nameWithControl ++ " = $2"
  /\ updateQuery controlBlindCompare "t" None
                 [("a", VNum 2); (nameWithControl, VNum 1)]
     <> updateQuery controlBlindCompare "t" None
                    [(nameWithControl, VNum 1); ("a", VNum 2)].
Proof.
  split; [intros a b; apply codeUnitCompare_total|].
  split; [intros a b c; apply codeUnitCompare_trans|].
  split; [reflexivity|]. split; [discriminate|].
  split; [apply perm_swap|]. split; [reflexivity|]. split; [reflexivity|].
  discriminate.
Qed.

(** C6. [save] compiles an INSERT whose column list is the record's keys
    in their own order, whose VALUES list is [$1, ..., $n] bound to the
    record's values in that order, and which ends with the
    [ON CONFLICT (id) DO UPDATE SET] clause holding [col = EXCLUDED.col]
    for every column; this is the statement [save] executes. *)
Theorem C6_save_is_upsert_in_key_order
        {Error Pool : Type} `{DatabasePool Error Pool}
        (w : World) (table : string) (r : record) :
  let columns := Object_keys r in
  let s := saveQuery table r in
  query s
  = "INSERT INTO " ++ table ++ " (" ++ join ", " columns ++ ") VALUES ("
    ++ join ", " (map placeholder (seq 1 (List.length columns))) ++ ")"
    ++ newline ++ "      ON CONFLICT (id) DO UPDATE SET "
    ++ join ", " (map (fun col => col ++ " = EXCLUDED." ++ col) columns)
  /\ params s = Object_values r
  /\ exists rest,
       trace (snd (save table r w))
       = (trace w ++ Executed (query s) (Some (params s)) :: rest)%list.
Proof.
  intros columns s. subst columns s. rewrite saveQuery_eq. cbn [query params].
  assert (El : List.length (Object_keys r) = List.length r)
    by apply length_map.
  rewrite El. split; [reflexivity|]. split; [reflexivity|].
  rewrite save_afterWrite, saveQuery_eq. unfold afterWrite. cbn [query params].
  destruct (pool_query _ _ _) as [[err|res] p]; cbn [snd trace]; eauto.
Qed.

(** C7. [In(col, [])] writes [col IN ()] and binds nothing, and so does
    [NotIn(col, [])] with [col NOT IN ()]; the predicate is not left out,
    so the search over table [t] with that one predicate on [status] has
    the WHERE clause [status IN ()]. *)
Theorem C7_empty_in_list_is_kept (col : string) (ps : list value) :
  applyPredicate (In_ col []) ps = (Some (col ++ " IN ()"), ps)
  /\ applyPredicate (NotIn col []) ps = (Some (col ++ " NOT IN ()"), ps)
  /\ searchQuery "t" {| where_ := Some [In_ "status" []]; order := None;
                        offset := None; limit := None |}
     = {| query := "SELECT * FROM t WHERE status IN ()"; params := [] |}.
Proof.
  rewrite !applyPredicate_eq. cbn [boundValues fragment List.length].
  rewrite app_nil_r. repeat split; reflexivity.
Qed.

(** C8, as the code has it.  Compiling a predicate appends its bound
    values, and the placeholder tokens of the fragment are the positions of
    those values, in order; for [TextSearch] the position of its one value
    is written once per column.  So tokens and appended values are equally
    many unless the predicate is a [TextSearch] whose number of columns is
    not one; and the literal [LIMIT 1] of [findOne] adds neither. *)
Theorem C8_tokens_name_the_appended_values
        (p : Predicate) (ps : list value) (table : string)
        (w : option (list Predicate)) :
  plainPredicate p = true ->
  let result := applyPredicate p ps in
  let tokens := placeholders (string_of_element (fst result)) in
  let k := S (List.length ps) in
  (exists appended,
      snd result = (ps ++ appended)%list
      /\ match p with
         | TextSearch cs v =>
             appended = [VStr ("%" ++ v ++ "%")]
             /\ tokens = repeat k (List.length cs)
         | Equals _ VNull => appended = [] /\ tokens = []
         | _ => tokens = seq k (List.length appended)
         end)
  /\ ((forall cs v, p = TextSearch cs v -> List.length cs = 1) ->
      tokensMatchBinds p ps)
  /\ findOneQuery table w
     = {| query := "SELECT * FROM " ++ table
                   ++ whereClause (fragments 0 (orEmpty w)) ++ " LIMIT 1";
          params := flat_map boundValues (orEmpty w) |}.
Proof.
  intros Hp result tokens k. subst result tokens k.
  assert (Htok := fragment_placeholders p (List.length ps) Hp).
  rewrite applyPredicate_eq. cbn [fst snd].
  split; [|split; [|apply findOneQuery_eq]].
  - exists (boundValues p). split; [reflexivity|]. rewrite Htok.
    destruct p as [c v|c vs|c vs|c v|cs v]; try reflexivity.
    + destruct v; try split; reflexivity.
    + split; reflexivity.
  - intros Hcs. unfold tokensMatchBinds.
    rewrite applyPredicate_eq. cbn [fst snd]. rewrite Htok, length_app.
    replace (List.length ps + List.length (boundValues p) - List.length ps)
      with (List.length (boundValues p)) by lia.
    destruct p as [c v|c vs|c vs|c v|cs v]; cbn [predicatePlaceholders];
      rewrite ?length_seq; try reflexivity.
    rewrite repeat_length. now rewrite (Hcs cs v eq_refl).
Qed.

(** [In] with two values on a binder that holds one: two tokens, two
    values appended. *)
Lemma C8_tokens_witness :
  plainPredicate (In_ "status" [VStr "active"; VStr "pending"]) = true
  /\ tokensMatchBinds (In_ "status" [VStr "active"; VStr "pending"])
                      [VStr "first"].
Proof.
  split; [reflexivity|].
  destruct (C8_tokens_name_the_appended_values
              (In_ "status" [VStr "active"; VStr "pending"]) [VStr "first"]
              "table" None eq_refl) as (_ & Hcount & _).
  apply Hcount. intros cs v E. discriminate E.
Defined.

(** [TextSearch] over two columns writes two tokens for its one value. *)
Lemma C8_two_columns_two_tokens_one_value :
  applyPredicate (TextSearch ["a"; "b"] "x") []
  = (Some "(a ILIKE $1 OR b ILIKE $1)", [VStr "%x%"])
  /\ placeholders "(a ILIKE $1 OR b ILIKE $1)" = [1; 1]
  /\ ~ tokensMatchBinds (TextSearch ["a"; "b"] "x") [].
Proof.
  split; [reflexivity|]. split; [reflexivity|].
  unfold tokensMatchBinds. simpl. discriminate.
Qed.

(** C9. [save], [update] and [delete] execute their statement once; when
    the pool fulfils it, the notification ([saved] with the record,
    [updated] with where and update, [deleted] with where) is emitted
    after it and the call is fulfilled; when the pool rejects it, the call
    is rejected with that same error and nothing is emitted. *)
Theorem C9_notification_follows_successful_write
        {Error Pool : Type} `{DatabasePool Error Pool}
        (localeCompare : string -> string -> Z)
        (w : World) (table : string) (r upd : record)
        (where_ : option (list Predicate)) :
  let outcome (s : Statement) (e : Event) : (Error + unit) * World :=
    let executed := Executed (query s) (Some (params s)) in
    match pool_query (pool w) (query s) (Some (params s)) with
    | (inr _, p) =>
        (inr tt,
         {| pool := p; trace := (trace w ++ [executed; Emitted e])%list |})
    | (inl err, p) =>
        (inl err, {| pool := p; trace := (trace w ++ [executed])%list |})
    end in
  save table r w = outcome (saveQuery table r) (saved r)
  /\ update localeCompare table where_ upd w
     = outcome (updateQuery localeCompare table where_ upd)
               (updated where_ upd)
  /\ delete table where_ w
     = outcome (deleteQuery table where_) (deleted where_).
Proof.
  cbv zeta. rewrite save_afterWrite, update_afterWrite, delete_afterWrite.
  repeat split; reflexivity.
Qed.

(** C10. The compiled SELECT is [SELECT * FROM table] followed by: a WHERE
    clause exactly when the where list is present and not empty; an ORDER
    BY clause exactly when the order list is present and not empty; an
    OFFSET clause exactly when offset is defined and a LIMIT clause exactly
    when limit is defined, each with a placeholder bound to the number
    given, zero included. *)
Theorem C10_search_clauses (table : string) (spec : SearchSpec) :
  let bound := flat_map boundValues (orEmpty (where_ spec)) in
  let n := List.length bound in
  let whereText :=
    match where_ spec with
    | Some ((_ :: _) as preds) =>
        " WHERE " ++ join_elements " AND " (fragments 0 preds)
    | _ => ""
    end in
  let orderText :=
    match order spec with
    | Some ((_ :: _) as os) =>
        " ORDER BY "
        ++ join ", " (map (fun o => column o ++ " " ++ toUpperCase (direction o)) os)
    | _ => ""
    end in
  let offsetText :=
    match offset spec with
    | Some _ => " OFFSET " ++ placeholder (S n)
    | None => ""
    end in
  let offsetValue :=
    match offset spec with Some z => [VNum z] | None => [] end in
  let limitText :=
    match limit spec with
    | Some _ => " LIMIT " ++ placeholder (S (n + List.length offsetValue))
    | None => ""
    end in
  let limitValue :=
    match limit spec with Some z => [VNum z] | None => [] end in
  searchQuery table spec
  = {| query := "SELECT * FROM " ++ table ++ whereText ++ orderText
                ++ offsetText ++ limitText;
       params := (bound ++ offsetValue ++ limitValue)%list |}
  /\ searchQuery table {| where_ := None; order := Some [];
                          offset := Some 0%Z; limit := Some 0%Z |}
     = {| query := "SELECT * FROM " ++ table ++ " OFFSET $1 LIMIT $2";
          params := [VNum 0; VNum 0] |}.
Proof.
  cbv zeta. split.
  - rewrite searchQuery_eq.
    destruct spec as [[[|p preds]|] o off lim];
      cbn [where_ order offset limit orEmpty]; reflexivity.
  - rewrite searchQuery_eq. reflexivity.
Qed.

(** * Further properties of the code *)

(** ** Words *)

Lemma isWord_cons (c : ascii) (w : string) :
  isWhitespace c = false -> noWhitespace w = true ->
  isWord (String c w) = true.
Proof. intros Hc Hw. unfold isWord. simpl. now rewrite Hc, Hw. Qed.

Lemma words_are_words (s : string) : forallb isWord (words s) = true.
Proof.
  induction s as [|c s IH]; [reflexivity|].
  cbn [words]. destruct (isWhitespace c) eqn:Ec; [exact IH|].
  destruct s as [|c' s]; [cbn; now rewrite Ec|].
  destruct (isWhitespace c') eqn:Ec'.
  - cbn [forallb]. rewrite IH, andb_true_r. now apply isWord_cons.
  - destruct (words (String c' s)) as [|w ws]; [cbn; now rewrite Ec|].
    cbn [forallb] in *. apply andb_true_iff in IH as [Hw Hws].
    rewrite Hws, andb_true_r.
    unfold isWord in Hw. apply andb_true_iff in Hw as [_ Hw].
    now apply isWord_cons.
Qed.

Lemma words_word_then (w t : string) :
  isWord w = true -> startsWithSpace t = true \/ t = "" ->
  words (w ++ t) = w :: words t.
Proof.
  unfold isWord. intros H Ht. apply andb_true_iff in H as [Hne Hw].
  induction w as [|c w IH]; [discriminate Hne|].
  cbn [noWhitespace] in Hw. apply andb_true_iff in Hw as [Hc Hw].
  apply negb_true_iff in Hc.
  destruct w as [|c2 w].
  - cbn [append words]. rewrite Hc.
    destruct t as [|c' t]; [reflexivity|].
    destruct Ht as [Ht|Ht]; [|discriminate Ht].
    cbn [startsWithSpace] in Ht. now rewrite Ht.
  - specialize (IH eq_refl Hw).
    cbn [noWhitespace] in Hw. apply andb_true_iff in Hw as [Hc2 _].
    apply negb_true_iff in Hc2.
    change ((String c (String c2 w)) ++ t)
      with (String c (String c2 w ++ t)).
    cbn [words]. rewrite Hc.
    change (String c2 w ++ t) with (String c2 (w ++ t)) in *.
    cbv iota. rewrite Hc2. now rewrite IH.
Qed.

Lemma words_join (ws : list string) :
  forallb isWord ws = true -> words (join " " ws) = ws.
Proof.
  induction ws as [|w ws IH]; [reflexivity|].
  cbn [forallb]. intros H. apply andb_true_iff in H as [Hw Hws].
  destruct ws as [|w2 ws].
  - cbn [join]. rewrite <- (append_empty_r w) at 1.
    rewrite words_word_then; auto.
  - change (join " " (w :: w2 :: ws)) with (w ++ " " ++ join " " (w2 :: ws)).
    rewrite words_word_then; auto.
    change (words (" " ++ join " " (w2 :: ws)))
      with (words (join " " (w2 :: ws))).
    now rewrite IH.
Qed.

(** X1. Normalizing keeps the words of a text and changes nothing in a text
    that is already normalized: normalizing twice is normalizing once. *)
Theorem normalizeQuery_idempotent (q : string) :
  words (normalizeQuery q) = words q
  /\ normalizeQuery (normalizeQuery q) = normalizeQuery q.
Proof.
  assert (Hw : words (normalizeQuery q) = words q).
  { rewrite normalizeQuery_words. apply words_join, words_are_words. }
  split; [exact Hw|].
  rewrite (normalizeQuery_words (normalizeQuery q)), Hw.
  symmetry. apply normalizeQuery_words.
Qed.

(** ** Single-spaced texts *)

Lemma singleSpaced_word_app (w t : string) :
  noWhitespace w = true -> singleSpaced (w ++ t) = singleSpaced t.
Proof.
  induction w as [|c w IH]; [reflexivity|].
  cbn [noWhitespace append singleSpaced]. intros H.
  apply andb_true_iff in H as [Hc Hw]. apply negb_true_iff in Hc.
  rewrite Hc. now apply IH.
Qed.

Lemma join_words_head (w : string) (ws : list string) :
  isWord w = true ->
  exists c t, join " " (w :: ws) = String c t /\ isWhitespace c = false.
Proof.
  unfold isWord. intros H. apply andb_true_iff in H as [Hne Hw].
  destruct w as [|c w]; [discriminate Hne|].
  cbn [noWhitespace] in Hw. apply andb_true_iff in Hw as [Hc _].
  apply negb_true_iff in Hc.
  destruct ws; eexists _, _; split; try reflexivity; exact Hc.
Qed.

Lemma isNormalized_join (ws : list string) :
  forallb isWord ws = true -> isNormalized (join " " ws) = true.
Proof.
  unfold isNormalized.
  induction ws as [|w ws IH]; [reflexivity|].
  cbn [forallb]. intros H. apply andb_true_iff in H as [Hw Hws].
  destruct (join_words_head w ws Hw) as (c & t & E & Hc).
  apply andb_true_iff. split; [rewrite E; cbn; now rewrite Hc|].
  assert (Hnw : noWhitespace w = true)
    by (unfold isWord in Hw; now apply andb_true_iff in Hw as [_ Hw]).
  destruct ws as [|w2 ws].
  - cbn [join]. rewrite <- (append_empty_r w).
    now rewrite singleSpaced_word_app.
  - change (join " " (w :: w2 :: ws)) with (w ++ " " ++ join " " (w2 :: ws)).
    rewrite singleSpaced_word_app by exact Hnw.
    specialize (IH Hws). apply andb_true_iff in IH as [Hstart Hrest].
    cbn [forallb] in Hws. apply andb_true_iff in Hws as [Hw2 _].
    destruct (join_words_head w2 ws Hw2) as (c2 & t2 & E2 & Hc2).
    rewrite E2 in *. cbn [append singleSpaced startsWithSpace] in *.
    rewrite Hc2 in *. cbn. exact Hrest.
Qed.

Lemma replaceWhitespace_singleSpaced (s : string) (inRun : bool) :
  singleSpaced s = true ->
  (inRun = true -> startsWithSpace s = false) ->
  replaceWhitespace inRun s = s.
Proof.
  revert inRun. induction s as [|c s IH]; intros inRun Hs Hrun;
    [reflexivity|].
  cbn [singleSpaced replaceWhitespace startsWithSpace] in *.
  apply andb_true_iff in Hs as [Hc Hs].
  destruct (isWhitespace c) eqn:Ec.
  - destruct inRun; [specialize (Hrun eq_refl); discriminate Hrun|].
    apply andb_true_iff in Hc as [Hc Hnext].
    apply andb_true_iff in Hc as [Hc _].
    apply Ascii.eqb_eq in Hc. subst c.
    rewrite IH; auto. intros _. now apply negb_true_iff.
  - rewrite IH; auto. discriminate.
Qed.

Lemma trimEnd_singleSpaced (s : string) :
  singleSpaced s = true -> trimEnd s = s.
Proof.
  induction s as [|c s IH]; [reflexivity|].
  cbn [singleSpaced trimEnd]. intros Hs.
  apply andb_true_iff in Hs as [Hc Hs]. rewrite (IH Hs).
  destruct s as [|c' s]; [|reflexivity].
  destruct (isWhitespace c); [|reflexivity].
  apply andb_true_iff in Hc as [Hc _].
  apply andb_true_iff in Hc as [_ Hc]. discriminate Hc.
Qed.

Lemma trimStart_noSpace (s : string) :
  startsWithSpace s = false -> trimStart s = s.
Proof. destruct s as [|c s]; [reflexivity|]. simpl. now intros ->. Qed.

(** X2. The texts that normalizing leaves are the single-spaced ones: every
    result is single-spaced, and a text is its own normalization exactly
    when it is single-spaced. *)
Theorem normalizeQuery_single_spaced (q : string) :
  isNormalized (normalizeQuery q) = true
  /\ (isNormalized q = true <-> normalizeQuery q = q).
Proof.
  assert (Hn : forall s, isNormalized (normalizeQuery s) = true).
  { intros s. rewrite normalizeQuery_words.
    apply isNormalized_join, words_are_words. }
  split; [apply Hn|]. split.
  - unfold isNormalized. intros H. apply andb_true_iff in H as [Hstart Hs].
    apply negb_true_iff in Hstart.
    unfold normalizeQuery, trim.
    rewrite replaceWhitespace_singleSpaced by (auto; discriminate).
    rewrite trimEnd_singleSpaced by exact Hs.
    now apply trimStart_noSpace.
  - intros E. rewrite <- E. apply Hn.
Qed.

(** ** The stub pool *)

Lemma PoolStub_query_eq (self : PoolStub.t) (q : string)
      (ps : option (list value)) :
  PoolStub.query self q ps
  = match find (PoolStub.matches (normalizeQuery q) ps)
               (PoolStub.queries self) with
    | Some e => (stub_result e, self)
    | None =>
        ({| rows := [] |},
         {| PoolStub.queries := PoolStub.queries self;
            PoolStub.console :=
              (PoolStub.console self
               ++ [{| warned_query := normalizeQuery q;
                      warned_params := ps |}])%list |})
    end.
Proof. reflexivity. Qed.

Lemma sameWords_normalizeQuery (q q' : string) :
  sameWords q q' <-> normalizeQuery q = normalizeQuery q'.
Proof. unfold sameWords. now rewrite !normalizeQuery_words. Qed.

(** X3. Spacing never matters to the stub: texts with the same words are
    answered alike, and registering either of them builds the same stub. *)
Theorem stub_ignores_spacing
        (registry : list StubbedQuery) (e e' : StubbedQuery)
        (q q' : string) (ps : option (list value)) :
  sameWords q q' ->
  sameWords (stub_query e) (stub_query e') ->
  stub_params e = stub_params e' -> stub_result e = stub_result e' ->
  fst (PoolStub.query (PoolStub.new (Some registry)) q ps)
  = fst (PoolStub.query (PoolStub.new (Some registry)) q' ps)
  /\ PoolStub.new (Some (e :: registry)) = PoolStub.new (Some (e' :: registry)).
Proof.
  intros Hq He Hp Hr.
  apply sameWords_normalizeQuery in Hq, He. split.
  - rewrite !PoolStub_query_eq, Hq.
    destruct (find _ _); reflexivity.
  - unfold PoolStub.new. cbn [orEmpty map]. now rewrite He, Hp, Hr.
Qed.

Lemma stub_ignores_spacing_witness :
  fst (PoolStub.query usersStub spacedText (Some [VStr "1"]))
  = fst (PoolStub.query usersStub "SELECT * FROM users" (Some [VStr "1"]))
  /\ PoolStub.new (Some [aliceEntry])
     = PoolStub.new
         (Some [{| stub_query := "SELECT * FROM users WHERE   id = $1 LIMIT 1 ";
                   stub_params := Some [VStr "1"];
                   stub_result := {| rows := [alice] |} |}]).
Proof.
  destruct (stub_ignores_spacing
              [] aliceEntry
              {| stub_query := "SELECT * FROM users WHERE   id = $1 LIMIT 1 ";
                 stub_params := Some [VStr "1"];
                 stub_result := {| rows := [alice] |} |}
              spacedText "SELECT * FROM users" (Some [VStr "1"])
              ltac:(vm_compute; reflexivity) ltac:(vm_compute; reflexivity)
              eq_refl eq_refl) as [_ Hnew].
  destruct (stub_ignores_spacing
              [aliceEntry] aliceEntry aliceEntry
              spacedText "SELECT * FROM users" (Some [VStr "1"])
              ltac:(vm_compute; reflexivity) ltac:(vm_compute; reflexivity)
              eq_refl eq_refl) as [Hquery _].
  split; [exact Hquery | exact Hnew].
Defined.


(** ** Reads and writes of the client *)

Lemma findOne_afterRead {Error Pool : Type} `{DatabasePool Error Pool}
      (w : World) (table : string) (where_ : option (list Predicate)) :
  findOne table where_ w
  = afterRead w (findOneQuery table where_) (fun r => nth_error (rows r) 0).
Proof.
  unfold findOne, afterRead, await, query_, resolve.
  now destruct (pool_query _ _ _) as [[err|res] p].
Qed.

Lemma search_afterRead {Error Pool : Type} `{DatabasePool Error Pool}
      (w : World) (table : string) (spec : SearchSpec) :
  search table spec w = afterRead w (searchQuery table spec) rows.
Proof.
  unfold search, afterRead, await, query_, resolve.
  now destruct (pool_query _ _ _) as [[err|res] p].
Qed.

Lemma count_afterRead {Error Pool : Type} `{DatabasePool Error Pool}
      (w : World) (table : string) (where_ : list Predicate) :
  count table where_ w
  = afterRead w (countQuery table where_)
              (fun r => orZero (cntOf (nth_error (rows r) 0))).
Proof.
  unfold count, afterRead, await, query_, resolve.
  now destruct (pool_query _ _ _) as [[err|res] p].
Qed.

(** A read on a stub: the answer is taken from the stub's result. *)
Lemma afterRead_stub {Error A : Type} (w : @World PoolStub.t) (s : Statement)
      (answer : QueryResult -> A) :
  afterRead (Error := Error) w s answer
  = (inr (answer (fst (PoolStub.query (pool w) (query s) (Some (params s))))),
     {| pool := snd (PoolStub.query (pool w) (query s) (Some (params s)));
        trace := (trace w ++ [Executed (query s) (Some (params s))])%list |}).
Proof.
  unfold afterRead. cbn [pool_query PoolStub_DatabasePool].
  now destruct (PoolStub.query _ _ _).
Qed.

Lemma afterWrite_stub {Error : Type} (w : @World PoolStub.t) (s : Statement)
      (e : Event) :
  afterWrite (Error := Error) w s e
  = (inr tt,
     {| pool := snd (PoolStub.query (pool w) (query s) (Some (params s)));
        trace := (trace w ++ [Executed (query s) (Some (params s));
                              Emitted e])%list |}).
Proof.
  unfold afterWrite. cbn [pool_query PoolStub_DatabasePool].
  now destruct (PoolStub.query _ _ _).
Qed.

Lemma PoolStub_query_queries (self : PoolStub.t) (q : string)
      (ps : option (list value)) :
  PoolStub.queries (snd (PoolStub.query self q ps)) = PoolStub.queries self.
Proof. rewrite PoolStub_query_eq. now destruct (find _ _). Qed.

Lemma PoolStub_query_answer (self self' : PoolStub.t) (q : string)
      (ps : option (list value)) :
  PoolStub.queries self' = PoolStub.queries self ->
  fst (PoolStub.query self' q ps) = fst (PoolStub.query self q ps).
Proof.
  intros E. rewrite !PoolStub_query_eq, E. now destruct (find _ _).
Qed.

Lemma sameAnswers_intro {Error : Type} (w w' : @World PoolStub.t) :
  PoolStub.queries (pool w') = PoolStub.queries (pool w) ->
  sameAnswers (Error := Error) w w'.
Proof.
  intros E. repeat split; intros;
    rewrite ?findOne_afterRead, ?search_afterRead, ?count_afterRead,
      !afterRead_stub; cbn [fst];
    now rewrite (PoolStub_query_answer _ _ _ _ E).
Qed.

(** X5. On a null client every write is fulfilled and followed by its event,
    and nothing of it is kept: every read is answered afterwards as it was
    before. *)
Theorem null_client_keeps_no_write {Error : Type}
        (localeCompare : string -> string -> Z) (w : @World PoolStub.t)
        (table : string) (r : record) (where_ : option (list Predicate))
        (upd : record) :
  let saving := save (Error := Error) table r w in
  let updating := update (Error := Error) localeCompare table where_ upd w in
  let deleting := delete (Error := Error) table where_ w in
  (fst saving = inr tt
   /\ trace (snd saving)
      = (trace w ++ [Executed (query (saveQuery table r))
                              (Some (params (saveQuery table r)));
                     Emitted (saved r)])%list
   /\ sameAnswers (Error := Error) w (snd saving))
  /\ (fst updating = inr tt
      /\ trace (snd updating)
         = (trace w
            ++ [Executed (query (updateQuery localeCompare table where_ upd))
                         (Some (params (updateQuery localeCompare table
                                                    where_ upd)));
                Emitted (updated where_ upd)])%list
      /\ sameAnswers (Error := Error) w (snd updating))
  /\ (fst deleting = inr tt
      /\ trace (snd deleting)
         = (trace w ++ [Executed (query (deleteQuery table where_))
                                 (Some (params (deleteQuery table where_)));
                        Emitted (deleted where_)])%list
      /\ sameAnswers (Error := Error) w (snd deleting)).
Proof.
  cbv zeta.
  rewrite save_afterWrite, update_afterWrite, delete_afterWrite,
    !afterWrite_stub.
  cbn [fst snd trace pool].
  repeat split; try reflexivity;
    try (apply sameAnswers_intro; cbn [pool]; apply PoolStub_query_queries).
Qed.

(** X6. A read executes its one statement and nothing else: no event is
    emitted.  It is fulfilled with the first row ([findOne]), the rows
    ([search]) or the count of the first row, 0 when there is none
    ([count]); a rejection of the pool rejects the read with the same
    error. *)
Theorem reads_execute_once_and_emit_nothing
        {Error Pool : Type} `{DatabasePool Error Pool}
        (w : World) (table : string) (where_ : option (list Predicate))
        (spec : SearchSpec) (counted : list Predicate) :
  findOne table where_ w
  = afterRead w (findOneQuery table where_) (fun r => nth_error (rows r) 0)
  /\ search table spec w = afterRead w (searchQuery table spec) rows
  /\ count table counted w
     = afterRead w (countQuery table counted)
                 (fun r => match rows r with
                           | VObj fields :: _ =>
                               orZero (property "cnt" fields)
                           | _ => VNum 0
                           end).
Proof.
  split; [apply findOne_afterRead|]. split; [apply search_afterRead|].
  rewrite count_afterRead. unfold afterRead.
  destruct (pool_query _ _ _) as [[err|[rs]] p]; [reflexivity|].
  cbn [rows]. destruct rs as [|[| | | | | |fields] rs]; reflexivity.
Qed.

(** ** JSON text of strings *)

Lemma unquote_quoteJSONChar (c : ascii) (k : string) :
  unquoteJSONChar (quoteJSONChar c ++ k) = Some (c, k).
Proof.
  destruct c as [[] [] [] [] [] [] [] []]; reflexivity.
Qed.

Lemma quoteJSONChar_head (c : ascii) (k : string) :
  head (quoteJSONChar c ++ k) <> head dquote.
Proof.
  destruct c as [[] [] [] [] [] [] [] []]; discriminate.
Qed.

Lemma quoteJSONBody_inj (s1 s2 r1 r2 : string) :
  quoteJSONBody s1 ++ dquote ++ r1 = quoteJSONBody s2 ++ dquote ++ r2 ->
  s1 = s2 /\ r1 = r2.
Proof.
  revert s2. induction s1 as [|c1 s1 IH]; intros [|c2 s2];
    cbn [quoteJSONBody]; rewrite ?append_assoc; intros H.
  - injection H as H. now split.
  - exfalso. apply (quoteJSONChar_head c2 (quoteJSONBody s2 ++ dquote ++ r2)).
    now rewrite <- H.
  - exfalso. apply (quoteJSONChar_head c1 (quoteJSONBody s1 ++ dquote ++ r1)).
    now rewrite H.
  - apply (f_equal unquoteJSONChar) in H.
    rewrite !unquote_quoteJSONChar in H. injection H as -> H.
    apply IH in H as [-> ->]. now split.
Qed.

(** The stub tells two one-string parameter lists apart exactly when the
    strings differ. *)
Lemma strictEquals_one_string (a b : string) :
  strictEquals (JSON_stringify (Some [VStr a])) (JSON_stringify (Some [VStr b]))
  = String.eqb a b.
Proof.
  change (JSON_stringify (Some [VStr a]))
    with (Some ("[" ++ (dquote ++ quoteJSONBody a ++ dquote) ++ "]")).
  change (JSON_stringify (Some [VStr b]))
    with (Some ("[" ++ (dquote ++ quoteJSONBody b ++ dquote) ++ "]")).
  cbn [strictEquals].
  destruct (String.eqb a b) eqn:E.
  - apply String.eqb_eq in E. subst. apply String.eqb_refl.
  - apply String.eqb_neq in E. apply String.eqb_neq. intros H. apply E.
    rewrite !append_assoc in H. injection H as H.
    now apply quoteJSONBody_inj in H.
Qed.

Lemma length_append (a b : string) :
  String.length (a ++ b) = String.length a + String.length b.
Proof. induction a as [|x a IH]; [reflexivity|]. simpl. now rewrite IH. Qed.

Lemma append_cancel_r (a b c : string) : a ++ c = b ++ c -> a = b.
Proof.
  revert b. induction a as [|x a IH]; intros [|y b] H.
  - reflexivity.
  - exfalso. apply (f_equal String.length) in H.
    cbn [append String.length] in H. rewrite length_append in H. lia.
  - exfalso. apply (f_equal String.length) in H.
    cbn [append String.length] in H. rewrite length_append in H. lia.
  - cbn [append] in H. injection H as -> H. f_equal. now apply IH.
Qed.

(** ** The registry of [createNull] *)

Lemma find_app {A : Type} (f : A -> bool) (l1 l2 : list A) :
  find f (l1 ++ l2)%list
  = match find f l1 with
    | Some x => Some x
    | None => find f l2
    end.
Proof.
  induction l1 as [|x l1 IH]; [reflexivity|].
  simpl. destruct (f x); [reflexivity | exact IH].
Qed.

(** An entry as [PoolStub] keeps it. *)
Lemma PoolStub_new_queries (l : list StubbedQuery) :
  PoolStub.queries (PoolStub.new (Some l))
  = map (fun q => {| stub_query := normalizeQuery (stub_query q);
                     stub_params := stub_params q;
                     stub_result := stub_result q |}) l.
Proof. reflexivity. Qed.

Lemma find_other_text (nq : string) (ps : option (list value))
      (l : list StubbedQuery) :
  Forall (fun e => String.eqb (normalizeQuery (stub_query e)) nq = false) l ->
  find (PoolStub.matches nq ps)
       (map (fun q => {| stub_query := normalizeQuery (stub_query q);
                         stub_params := stub_params q;
                         stub_result := stub_result q |}) l) = None.
Proof.
  induction 1 as [|e l He _ IH]; [reflexivity|].
  cbn [map find]. unfold PoolStub.matches at 1. cbn [stub_query].
  now rewrite He.
Qed.


Lemma findByIdQuery_eq (table id : string) :
  findByIdQuery table id
  = {| query := "SELECT * FROM " ++ table ++ " WHERE id = $1 LIMIT 1";
       params := [VStr id] |}.
Proof. unfold findByIdQuery. now rewrite findOneQuery_eq. Qed.

Lemma nth_error_rowIfTruthy (r : value) :
  nth_error (rowIfTruthy r) 0 = if truthy r then Some r else None.
Proof. unfold rowIfTruthy. now destruct (truthy r). Qed.



(** ** The null [UserRepository] *)

Lemma users_nullQueries (cfg : UserRepositoryNull) :
  nullQueries (UserRepository.nullConfig "users" cfg)
  = (usersById (orEmpty (repo_findById cfg))
     ++ usersByName (orEmpty (repo_searchByName cfg))
     ++ countsByName (orEmpty (repo_searchByName cfg)))%list.
Proof.
  unfold nullQueries, UserRepository.nullConfig.
  cbn [null_findById null_findOne null_search null_count orEmpty flat_map].
  rewrite !app_nil_r, !map_map. rewrite app_nil_l.
  unfold usersById, usersByName, countsByName.
  f_equal; [|f_equal]; apply map_ext; now intros [k x].
Qed.

Lemma entryOf_cons {A : Type} (key k : string) (a : A)
      (l : list (string * A)) :
  entryOf key ((k, a) :: l)
  = if String.eqb k key then Some a else entryOf key l.
Proof. unfold entryOf. cbn [find fst]. now destruct (String.eqb k key). Qed.

Lemma eqb_wrapped (a b : string) :
  String.eqb ("%" ++ a ++ "%") ("%" ++ b ++ "%") = String.eqb a b.
Proof.
  destruct (String.eqb a b) eqn:E.
  - apply String.eqb_eq in E. subst. apply String.eqb_refl.
  - apply String.eqb_neq in E. apply String.eqb_neq. intros H. apply E.
    injection H as H. now apply append_cancel_r in H.
Qed.

Lemma byId_text_normalized :
  normalizeQuery "SELECT * FROM users WHERE id = $1 LIMIT 1"
  = "SELECT * FROM users WHERE id = $1 LIMIT 1".
Proof. vm_compute. reflexivity. Qed.

Lemma byName_text_normalized :
  normalizeQuery "SELECT * FROM users WHERE name ILIKE $1 ORDER BY id ASC"
  = "SELECT * FROM users WHERE name ILIKE $1 ORDER BY id ASC".
Proof. vm_compute. reflexivity. Qed.

Lemma find_usersById (id : string) (users : list (string * User)) :
  find (PoolStub.matches "SELECT * FROM users WHERE id = $1 LIMIT 1"
                         (Some [VStr id]))
       (map (fun q => {| stub_query := normalizeQuery (stub_query q);
                         stub_params := stub_params q;
                         stub_result := stub_result q |})
            (usersById users))
  = option_map
      (fun u => {| stub_query := "SELECT * FROM users WHERE id = $1 LIMIT 1";
                   stub_params := Some [VStr id];
                   stub_result := {| rows := [userValue u] |} |})
      (entryOf id users).
Proof.
  induction users as [|[id' u] users IH]; [reflexivity|].
  rewrite entryOf_cons. cbn [usersById map find].
  unfold PoolStub.matches at 1. cbn [stub_query stub_params].
  rewrite byId_text_normalized, String.eqb_refl, strictEquals_one_string.
  cbn [andb]. destruct (String.eqb id' id) eqn:E; [|exact IH].
  apply String.eqb_eq in E. now subst.
Qed.

Lemma find_usersByName (name : string) (pages : list (string * Page User Z)) :
  find (PoolStub.matches
          "SELECT * FROM users WHERE name ILIKE $1 ORDER BY id ASC"
          (Some [VStr ("%" ++ name ++ "%")]))
       (map (fun q => {| stub_query := normalizeQuery (stub_query q);
                         stub_params := stub_params q;
                         stub_result := stub_result q |})
            (usersByName pages))
  = option_map
      (fun page =>
         {| stub_query :=
              "SELECT * FROM users WHERE name ILIKE $1 ORDER BY id ASC";
            stub_params := Some [VStr ("%" ++ name ++ "%")];
            stub_result := {| rows := map userValue (items page) |} |})
      (entryOf name pages).
Proof.
  induction pages as [|[name' page] pages IH]; [reflexivity|].
  rewrite entryOf_cons. cbn [usersByName map find].
  unfold PoolStub.matches at 1. cbn [stub_query stub_params].
  rewrite byName_text_normalized, String.eqb_refl, strictEquals_one_string,
    eqb_wrapped.
  cbn [andb]. destruct (String.eqb name' name) eqn:E; [|exact IH].
  apply String.eqb_eq in E. now subst.
Qed.

(** The three texts of the registry, and the text of a count of all
    rows: four different texts. *)
Lemma usersById_text (nq : string) (users : list (string * User)) :
  String.eqb "SELECT * FROM users WHERE id = $1 LIMIT 1" nq = false ->
  Forall (fun e => String.eqb (normalizeQuery (stub_query e)) nq = false)
         (usersById users).
Proof.
  intros H. apply Forall_forall. intros e He.
  apply in_map_iff in He as ([id u] & <- & _). cbn [stub_query].
  now rewrite byId_text_normalized.
Qed.

Lemma usersByName_text (nq : string) (pages : list (string * Page User Z)) :
  String.eqb "SELECT * FROM users WHERE name ILIKE $1 ORDER BY id ASC" nq
  = false ->
  Forall (fun e => String.eqb (normalizeQuery (stub_query e)) nq = false)
         (usersByName pages).
Proof.
  intros H. apply Forall_forall. intros e He.
  apply in_map_iff in He as ([name page] & <- & _). cbn [stub_query].
  now rewrite byName_text_normalized.
Qed.

Lemma countsByName_text (nq : string) (pages : list (string * Page User Z)) :
  String.eqb "SELECT COUNT(*) AS cnt FROM users WHERE name ILIKE $1" nq
  = false ->
  Forall (fun e => String.eqb (normalizeQuery (stub_query e)) nq = false)
         (countsByName pages).
Proof.
  intros H. apply Forall_forall. intros e He.
  apply in_map_iff in He as ([name page] & <- & _). cbn [stub_query].
  replace (normalizeQuery _)
    with "SELECT COUNT(*) AS cnt FROM users WHERE name ILIKE $1"
    by (vm_compute; reflexivity).
  exact H.
Qed.

Lemma users_registry (cfg : UserRepositoryNull) :
  PoolStub.queries (pool (snd (UserRepository.createNull cfg)))
  = (map (fun q => {| stub_query := normalizeQuery (stub_query q);
                      stub_params := stub_params q;
                      stub_result := stub_result q |})
         (usersById (orEmpty (repo_findById cfg)))
     ++ map (fun q => {| stub_query := normalizeQuery (stub_query q);
                         stub_params := stub_params q;
                         stub_result := stub_result q |})
            (usersByName (orEmpty (repo_searchByName cfg)))
     ++ map (fun q => {| stub_query := normalizeQuery (stub_query q);
                         stub_params := stub_params q;
                         stub_result := stub_result q |})
            (countsByName (orEmpty (repo_searchByName cfg))))%list.
Proof.
  unfold UserRepository.createNull, createNull. cbn [snd pool].
  now rewrite PoolStub_new_queries, users_nullQueries, !map_app.
Qed.

(** X8. A null [UserRepository], and a [UserService] over it, find the user
    registered under an id, and no user under an id that is not
    registered. *)
Theorem null_repository_finds_registered_users {Error : Type}
        (cfg : UserRepositoryNull) (id : string) :
  let client := UserRepository.createNull cfg in
  let registered := option_map userValue (entryOf id (orEmpty (repo_findById cfg))) in
  fst (UserRepository.findById (Error := Error) (fst client) id (snd client))
  = inr registered
  /\ fst (UserService.getUserById (Error := Error)
            {| UserService.repo := fst client |} id (snd client))
     = inr registered.
Proof.
  cbv zeta.
  assert (Hfind : fst (UserRepository.findById (Error := Error)
                         (fst (UserRepository.createNull cfg)) id
                         (snd (UserRepository.createNull cfg)))
                  = inr (option_map userValue
                           (entryOf id (orEmpty (repo_findById cfg))))).
  { unfold UserRepository.findById.
    change (UserRepository.table (fst (UserRepository.createNull cfg)))
      with "users".
    unfold findById.
    rewrite findOne_afterRead, afterRead_stub, PoolStub_query_eq.
    cbn [fst]. rewrite users_registry.
    change (findOneQuery "users" (Some [Equals "id" (VStr id)]))
      with (findByIdQuery "users" id).
    rewrite findByIdQuery_eq. cbn [query params].
    change ("SELECT * FROM " ++ "users" ++ " WHERE id = $1 LIMIT 1")
      with "SELECT * FROM users WHERE id = $1 LIMIT 1".
    rewrite byId_text_normalized, find_app, find_usersById.
    destruct (entryOf id (orEmpty (repo_findById cfg))) as [u|];
      [reflexivity|].
    cbn [option_map].
    rewrite find_app, !find_other_text; [reflexivity| |].
    - now apply countsByName_text.
    - now apply usersByName_text. }
  split; [exact Hfind | exact Hfind].
Qed.

(** X9. A null [UserRepository] answers a search by name with the items
    registered for the name, none when the name is not registered, and
    with a total count of 0 whatever count is registered: the count it asks
    for is the count of all rows, which nothing registers. *)
Theorem null_repository_counts_nothing {Error : Type}
        (cfg : UserRepositoryNull) (name : string) :
  let client := UserRepository.createNull cfg in
  let out :=
    UserRepository.searchByName (Error := Error) (fst client) name (snd client) in
  fst out
  = inr {| items := itemsFor name (orEmpty (repo_searchByName cfg));
           totalCount := VNum 0 |}
  /\ trace (snd out)
     = [Executed "SELECT * FROM users WHERE name ILIKE $1 ORDER BY id ASC"
                 (Some [VStr ("%" ++ name ++ "%")]);
        Executed "SELECT COUNT(*) AS cnt FROM users" (Some [])]
  /\ List.In {| warned_query := "SELECT COUNT(*) AS cnt FROM users";
                warned_params := Some [] |}
             (PoolStub.console (pool (snd out))).
Proof.
  cbv zeta. unfold UserRepository.searchByName.
  change (UserRepository.table (fst (UserRepository.createNull cfg)))
    with "users".
  unfold await, all2.
  rewrite search_afterRead, afterRead_stub.
  rewrite count_afterRead, afterRead_stub.
  cbn [fst snd pool trace resolve].
  set (w := snd (UserRepository.createNull cfg)).
  set (searching := PoolStub.query (pool w) _ _).
  assert (Hq : PoolStub.queries (snd searching)
               = PoolStub.queries (pool w))
    by apply PoolStub_query_queries.
  assert (Hcount : PoolStub.query (snd searching)
                     (query (countQuery "users" []))
                     (Some (params (countQuery "users" [])))
                   = ({| rows := [] |},
                      {| PoolStub.queries := PoolStub.queries (snd searching);
                         PoolStub.console :=
                           (PoolStub.console (snd searching)
                            ++ [{| warned_query := "SELECT COUNT(*) AS cnt FROM users";
                                   warned_params := Some [] |}])%list |})).
  { rewrite PoolStub_query_eq, Hq. subst w. rewrite users_registry.
    change (normalizeQuery (query (countQuery "users" [])))
      with (normalizeQuery "SELECT COUNT(*) AS cnt FROM users").
    replace (normalizeQuery "SELECT COUNT(*) AS cnt FROM users")
      with "SELECT COUNT(*) AS cnt FROM users" by (vm_compute; reflexivity).
    rewrite !find_app, !find_other_text; [reflexivity| | |].
    - now apply countsByName_text.
    - now apply usersByName_text.
    - now apply usersById_text. }
  rewrite Hcount. cbn [fst snd rows nth_error cntOf orZero PoolStub.console].
  split; [|split; [reflexivity | apply in_or_app; right; now left]].
  f_equal. f_equal. subst searching.
  rewrite PoolStub_query_eq. subst w. rewrite users_registry.
  change (normalizeQuery
            (query (searchQuery "users" (UserRepository.byNameSpec name))))
    with (normalizeQuery
            "SELECT * FROM users WHERE name ILIKE $1 ORDER BY id ASC").
  change (params (searchQuery "users" (UserRepository.byNameSpec name)))
    with [VStr ("%" ++ name ++ "%")].
  rewrite byName_text_normalized.
  rewrite find_app, find_other_text by now apply usersById_text.
  rewrite find_app, find_usersByName. unfold itemsFor.
  destruct (entryOf name (orEmpty (repo_searchByName cfg))) as [page|];
    [reflexivity|].
  cbn [option_map].
  rewrite find_other_text by now apply countsByName_text.
  reflexivity.
Qed.

(** ** A null client with nothing registered *)

(** X10. A null client made with no argument answers every read with nothing:
    no row, no rows, a count of 0; each read leaves one warning. *)
Theorem empty_null_client_answers_nothing {Error : Type}
        (table : string) (where_ : option (list Predicate))
        (spec : SearchSpec) (counted : list Predicate) :
  let warnedOf (s : Statement) : @World PoolStub.t :=
    {| pool := {| PoolStub.queries := [];
                  PoolStub.console :=
                    [{| warned_query := normalizeQuery (query s);
                        warned_params := Some (params s) |}] |};
       trace := [Executed (query s) (Some (params s))] |} in
  findOne (Error := Error) table where_ (createNull emptyNull)
  = (inr None, warnedOf (findOneQuery table where_))
  /\ search (Error := Error) table spec (createNull emptyNull)
     = (inr [], warnedOf (searchQuery table spec))
  /\ count (Error := Error) table counted (createNull emptyNull)
     = (inr (VNum 0), warnedOf (countQuery table counted)).
Proof.
  cbv zeta.
  rewrite findOne_afterRead, search_afterRead, count_afterRead,
    !afterRead_stub.
  repeat split.
Qed.

(** ** [memoize] *)

Lemma memoizedCalls_cached {State : Type} (factory : State -> value * State)
      (n : nat) (v : value) (s : State) :
  v <> VUndefined -> memoizedCalls factory n v s = (repeat v n, (v, s)).
Proof.
  intros Hv. induction n as [|n IH]; [reflexivity|].
  cbn [memoizedCalls repeat].
  replace (memoized factory v s) with (v, (v, s))
    by (destruct v; try reflexivity; now elim Hv).
  now rewrite IH.
Qed.

(** X11. The memoized function runs the factory once when the factory returns
    a value: every call returns that value, and the state is that after one
    run.  A factory that returns [undefined] is run again at every call. *)
Theorem memoize_runs_the_factory_once {State : Type}
        (factory : State -> value * State) (s : State) (n : nat) :
  (fst (factory s) <> VUndefined ->
   memoizedCalls factory (S n) VUndefined s
   = (repeat (fst (factory s)) (S n), (fst (factory s), snd (factory s))))
  /\ ((forall s', fst (factory s') = VUndefined) ->
      memoizedCalls factory n VUndefined s
      = (repeat VUndefined n,
         (VUndefined, Nat.iter n (fun s' => snd (factory s')) s))).
Proof.
  split.
  - intros Hv. cbn [memoizedCalls memoized].
    destruct (factory s) as [v s'] eqn:E. cbn [fst snd] in *.
    now rewrite memoizedCalls_cached.
  - intros Hundefined. revert s.
    induction n as [|n IH]; intros s; [reflexivity|].
    cbn [memoizedCalls memoized].
    rewrite (surjective_pairing (factory s)), Hundefined, IH.
    cbn [repeat]. f_equal. f_equal.
    exact (Nat.iter_swap n State (fun s' => snd (factory s')) s).
Qed.

(** Three calls over a factory that counts its runs, and over one that
    returns [undefined]. *)
Lemma memoize_runs_the_factory_once_witness :
  memoizedCalls countingFactory 3 VUndefined 0
  = ([VNum 0; VNum 0; VNum 0], (VNum 0, 1))
  /\ memoizedCalls undefinedFactory 3 VUndefined 0
     = ([VUndefined; VUndefined; VUndefined], (VUndefined, 3)).
Proof.
  split.
  - exact (proj1 (memoize_runs_the_factory_once countingFactory 0 2)
                 ltac:(discriminate)).
  - exact (proj2 (memoize_runs_the_factory_once undefinedFactory 0 3)
                 (fun _ => eq_refl)).
Defined.

(** ** [PendingQuery.toString] *)

Lemma join_empty_cons (x : string) (xs : list string) :
  join "" (x :: xs) = x ++ join "" xs.
Proof. destruct xs; [now rewrite append_empty_r | reflexivity]. Qed.

Lemma join_empty_app (xs ys : list string) :
  join "" (xs ++ ys)%list = join "" xs ++ join "" ys.
Proof.
  induction xs as [|x xs IH]; [reflexivity|].
  change ((x :: xs) ++ ys)%list with (x :: (xs ++ ys))%list.
  now rewrite !join_empty_cons, IH, append_assoc.
Qed.

Lemma flat_map_seq_shift {A : Type} (f : nat -> list A) (n : nat) :
  flat_map f (seq 1 n) = flat_map (fun i => f (S i)) (seq 0 n).
Proof.
  rewrite <- seq_shift. induction (seq 0 n) as [|i l IH]; [reflexivity|].
  cbn [map flat_map]. now rewrite IH.
Qed.

Lemma toString_interleave (template : list string) (parameters : list value) :
  PendingQuery.toString template parameters
  = PendingQuery.interleave template parameters.
Proof.
  unfold PendingQuery.toString.
  revert parameters. induction template as [|t ts IH]; intros ps;
    [reflexivity|].
  cbn [List.length seq flat_map]. rewrite flat_map_seq_shift.
  destruct ps as [|p ps]; cbn [PendingQuery.interleave nth List.length].
  - change (0 <? 0)%nat with false. cbn [List.app].
    rewrite join_empty_cons. f_equal.
    rewrite <- (IH []). reflexivity.
  - change (0 <? S (List.length ps))%nat with true. cbn [List.app].
    rewrite !join_empty_cons. f_equal. f_equal.
    rewrite <- (IH ps). reflexivity.
Qed.

Lemma interleave_firstn (template : list string) (parameters : list value) :
  PendingQuery.interleave template
    (firstn (List.length template) parameters)
  = PendingQuery.interleave template parameters.
Proof.
  revert parameters. induction template as [|t ts IH]; intros [|p ps];
    try reflexivity.
  cbn [List.length firstn PendingQuery.interleave]. now rewrite IH.
Qed.

(** X12. The text of a pending query takes the template strings and the
    parameters in turn, starting with a template string; parameters past
    the number of template strings are left out, and template strings past
    the parameters follow each other. *)
Theorem pending_query_text_interleaves
        (template : list string) (parameters : list value) :
  PendingQuery.toString template parameters
  = PendingQuery.interleave template parameters
  /\ PendingQuery.toString template
       (firstn (List.length template) parameters)
     = PendingQuery.toString template parameters
  /\ PendingQuery.toString template [] = join "" template.
Proof.
  rewrite !toString_interleave, interleave_firstn.
  split; [reflexivity|]. split; [reflexivity|].
  induction template as [|t ts IH]; [reflexivity|].
  cbn [PendingQuery.interleave]. now rewrite join_empty_cons, IH.
Qed.

(** ** Statements without predicates, and maps without entries *)

(** X13. With no predicate, absent or empty, no WHERE clause is written and no
    value bound: [findOne] reads the first row of the table, [count] counts
    every row, and [delete] and [update] reach every row. *)
Theorem no_predicate_reaches_every_row
        (localeCompare : string -> string -> Z) (table : string)
        (upd : record) :
  findOneQuery table (Some []) = findOneQuery table None
  /\ findOneQuery table None
     = {| query := "SELECT * FROM " ++ table ++ " LIMIT 1"; params := [] |}
  /\ countQuery table []
     = {| query := "SELECT COUNT(*) AS cnt FROM " ++ table; params := [] |}
  /\ deleteQuery table (Some []) = deleteQuery table None
  /\ deleteQuery table None
     = {| query := "DELETE FROM " ++ table; params := [] |}
  /\ updateQuery localeCompare table (Some []) upd
     = updateQuery localeCompare table None upd
  /\ updateQuery localeCompare table None upd
     = {| query := "UPDATE " ++ table ++ " SET "
                   ++ join ", " (assignments 0 (sortedEntries localeCompare upd));
          params := map snd (sortedEntries localeCompare upd) |}.
Proof.
  rewrite !findOneQuery_eq, !countQuery_eq, !deleteQuery_eq, !updateQuery_eq.
  cbn [orEmpty fragments whereClause flat_map List.length List.app].
  now rewrite !append_empty_r.
Qed.

(** X14. A record or an update map with no entry still compiles, to a
    statement with empty lists: an INSERT of no column, an UPDATE that sets
    nothing. *)
Theorem empty_maps_compile_to_empty_lists
        (localeCompare : string -> string -> Z) (table : string)
        (w : option (list Predicate)) :
  saveQuery table []
  = {| query := "INSERT INTO " ++ table ++ " () VALUES ()" ++ newline
                ++ "      ON CONFLICT (id) DO UPDATE SET ";
       params := [] |}
  /\ updateQuery localeCompare table w []
     = {| query := "UPDATE " ++ table ++ " SET "
                   ++ whereClause (fragments 0 (orEmpty w));
          params := flat_map boundValues (orEmpty w) |}.
Proof.
  rewrite saveQuery_eq, updateQuery_eq. 
  cbn [Object_keys Object_values map join List.length placeholdersFrom seq
       sortedEntries Object_entries sort assignments].
  now rewrite app_nil_r.
Qed.

(** ** A text search over no column *)

(** X15. A text search that names no column gives no condition: its place in
    the WHERE clause is empty, while its pattern is still bound, a value
    that no placeholder names. *)
Theorem textSearch_without_columns
        (table : string) (v : string) (ps : list value)
        (c x : string) :
  applyPredicate (TextSearch [] v) ps
  = (None, (ps ++ [VStr ("%" ++ v ++ "%")])%list)
  /\ findOneQuery table (Some [TextSearch [] v])
     = {| query := "SELECT * FROM " ++ table ++ " WHERE  LIMIT 1";
          params := [VStr ("%" ++ v ++ "%")] |}
  /\ query (deleteQuery table (Some [TextSearch [] v; Equals c (VStr x)]))
     = "DELETE FROM " ++ table ++ " WHERE  AND " ++ c ++ " = $2"
  /\ (noDollar table = true ->
      placeholders (query (findOneQuery table (Some [TextSearch [] v]))) = []).
Proof.
  split; [reflexivity|].
  split; [now rewrite findOneQuery_eq|].
  split; [now rewrite deleteQuery_eq|].
  intros Ht. now rewrite findOneQuery_placeholders.
Qed.

(** ** Every bound value is named *)

Lemma predicatePlaceholders_cover (p : Predicate) (k i : nat) :
  match p with TextSearch [] _ => false | _ => true end = true ->
  k < i <= k + List.length (boundValues p) ->
  List.In i (predicatePlaceholders p k).
Proof.
  destruct p as [c v|c vs|c vs|c v|[|c cs] v]; cbn [predicatePlaceholders];
    intros Hp Hi; try discriminate Hp;
    try (apply in_seq; lia).
  cbn [boundValues List.length repeat] in *. left. lia.
Qed.

Lemma wherePlaceholders_cover (preds : list Predicate) (k i : nat) :
  forallb (fun p => match p with TextSearch [] _ => false | _ => true end)
          preds = true ->
  k < i <= k + List.length (flat_map boundValues preds) ->
  List.In i (wherePlaceholders k preds).
Proof.
  revert k. induction preds as [|p preds IH]; intros k Hp Hi.
  - cbn in Hi. lia.
  - cbn [forallb] in Hp. apply andb_true_iff in Hp as [Hp Hps].
    cbn [flat_map wherePlaceholders] in *. rewrite length_app in Hi.
    apply in_or_app.
    destruct (Nat.le_gt_cases i (k + List.length (boundValues p))).
    + left. apply predicatePlaceholders_cover; [exact Hp | lia].
    + right. apply IH; [exact Hps | lia].
Qed.

(** X16. When every text search names a column, no bound value is left
    unnamed: every position of the parameter list of a compiled statement
    occurs among the placeholder tokens of its text. *)
Theorem every_bound_value_is_named
        (localeCompare : string -> string -> Z) (table : string)
        (spec : SearchSpec) (r : record) :
  noDollar table = true -> plainSpec spec = true -> plainRecord r = true ->
  namesColumns (where_ spec) = true ->
  namesEveryValue (findOneQuery table (where_ spec))
  /\ namesEveryValue (searchQuery table spec)
  /\ namesEveryValue (countQuery table (orEmpty (where_ spec)))
  /\ namesEveryValue (deleteQuery table (where_ spec))
  /\ namesEveryValue (saveQuery table r)
  /\ namesEveryValue (updateQuery localeCompare table (where_ spec) r).
Proof.
  intros Ht Hs Hr Hn. unfold namesEveryValue.
  assert (Hw : plainWhere (where_ spec) = true)
    by (unfold plainSpec in Hs; now apply andb_true_iff in Hs as [Hs _]).
  unfold namesColumns in Hn.
  repeat split; intros k Hk.
  - rewrite findOneQuery_placeholders by assumption.
    rewrite findOneQuery_eq in Hk. cbn [params] in Hk.
    apply wherePlaceholders_cover; [exact Hn | lia].
  - rewrite searchQuery_placeholders by assumption. cbv zeta.
    rewrite searchQuery_eq in Hk. cbn [params] in Hk.
    rewrite !length_app in Hk. rewrite !in_app_iff, !in_seq.
    destruct (Nat.le_gt_cases k
                (List.length (flat_map boundValues (orEmpty (where_ spec))))).
    + left. apply wherePlaceholders_cover; [exact Hn | lia].
    + right. lia.
  - rewrite countQuery_placeholders by assumption.
    rewrite countQuery_eq in Hk. cbn [params] in Hk.
    apply wherePlaceholders_cover; [exact Hn | lia].
  - rewrite deleteQuery_placeholders by assumption.
    rewrite deleteQuery_eq in Hk. cbn [params] in Hk.
    apply wherePlaceholders_cover; [exact Hn | lia].
  - rewrite saveQuery_placeholders by assumption.
    rewrite saveQuery_eq in Hk. cbn [params] in Hk.
    unfold Object_values in Hk. rewrite length_map in Hk.
    apply in_seq. lia.
  - rewrite updateQuery_placeholders by assumption.
    rewrite updateQuery_params_length in Hk.
    rewrite in_app_iff, in_seq.
    destruct (Nat.le_gt_cases k
                (List.length (flat_map boundValues (orEmpty (where_ spec))))).
    + right. apply wherePlaceholders_cover; [exact Hn | lia].
    + left. lia.
Qed.

(** A search with every kind of predicate, and an update under the same
    predicates. *)
Lemma every_bound_value_is_named_witness :
  namesEveryValue (searchQuery "users" fullSpec)
  /\ namesEveryValue
       (updateQuery codeUnitCompare "users" (where_ fullSpec)
                    [("name", VStr "Jane"); ("age", VNum 7)]).
Proof.
  destruct (every_bound_value_is_named
              codeUnitCompare "users" fullSpec
              [("name", VStr "Jane"); ("age", VNum 7)]
              eq_refl eq_refl eq_refl eq_refl)
    as (_ & Hsearch & _ & _ & _ & Hupdate).
  split; [exact Hsearch | exact Hupdate].
Defined.

(** ** Single registrations of [createNull] *)

Lemma matches_same (q : string) (ps : list value) (result : QueryResult) :
  PoolStub.matches (normalizeQuery q) (Some ps)
    {| stub_query := normalizeQuery q; stub_params := Some ps;
       stub_result := result |} = true.
Proof.
  unfold PoolStub.matches. cbn [stub_query stub_params].
  rewrite String.eqb_refl. cbn [andb]. now apply strictEquals_true.
Qed.

(** X17. A single registration of [createNull] comes back from the read it
    was registered for: the truthy result of a [findOne], the rows of a
    [search], the number of a [count]. *)
Theorem createNull_single_registration {Error : Type}
        (table : string) (w : list Predicate) (r : value)
        (spec : SearchSpec) (found : list value) (n : Z) :
  fst (findOne (Error := Error) table (Some w)
         (createNull {| null_findById := None;
                        null_findOne := Some [(table, [(w, r)])];
                        null_search := None; null_count := None |}))
  = inr (if truthy r then Some r else None)
  /\ fst (search (Error := Error) table spec
            (createNull {| null_findById := None; null_findOne := None;
                           null_search := Some [(table, [(spec, found)])];
                           null_count := None |}))
     = inr found
  /\ fst (count (Error := Error) table w
            (createNull {| null_findById := None; null_findOne := None;
                           null_search := None;
                           null_count := Some [(table, [(w, n)])] |}))
     = inr (VNum n).
Proof.
  rewrite findOne_afterRead, search_afterRead, count_afterRead,
    !afterRead_stub.
  cbn [fst]. rewrite !PoolStub_query_eq. unfold createNull. cbn [pool].
  rewrite !PoolStub_new_queries. unfold nullQueries.
  cbn [null_findById null_findOne null_search null_count orEmpty flat_map
       map List.app stubFor stub_query stub_params stub_result find].
  rewrite !matches_same. cbn [fst stub_result rows].
  split; [now rewrite nth_error_rowIfTruthy|]. now split.
Qed.

(** ** Writes of the null [UserRepository] *)


(** ** The texts of [user-repo.ts] *)

(** X19. The stub of [sql-stub.ts] writes each value into the text as
    [String] gives it, with no quotes and no escapes; the table name comes
    from a helper call, in double quotes. *)
Theorem user_repo_texts (id name : string) (user : User) :
  UserRepo.findByIdText id
  = "select id, name from " ++ dquote ++ "users" ++ dquote
    ++ " where id = " ++ id ++ " limit 1"
  /\ UserRepo.findByNameText name
     = "select id, name from " ++ dquote ++ "users" ++ dquote
       ++ " where name ilike %" ++ name ++ "% order by id"
  /\ UserRepo.saveText user
     = "insert into " ++ dquote ++ "users" ++ dquote
       ++ " (id, name) values (" ++ user_id user ++ ", " ++ user_name user
       ++ ") on conflict (id) do update set name = " ++ user_name user
  /\ UserRepo.deleteByIdText id
     = "delete from " ++ dquote ++ "users" ++ dquote ++ " where id = " ++ id.
Proof.
  unfold UserRepo.findByIdText, UserRepo.findByNameText, UserRepo.saveText,
    UserRepo.deleteByIdText.
  rewrite !toString_interleave.
  cbn [PendingQuery.interleave String_ UserRepo.usersTable].
  repeat split; rewrite ?append_assoc, ?append_empty_r; reflexivity.
Qed.
